(** * gcal-readonly-mcp: account configuration, token store and OAuth flow

    A shallow embedding of [config.go] and [auth.go].  The Go functions are
    state transformers over a [World]: the home directory, the file system
    and the loopback port.  The concurrent part of [PerformOAuthFlow] (the
    listener, the manual reader, the coordinator and their two channels) is
    a transition system driven by a schedule of events.  The libraries and
    the OAuth provider are parameters ([Platform]).  Console output and the
    launch of the browser have no effect on the results and are left out;
    the five minutes of the timer are an event of the schedule. *)

From Stdlib Require Import ZArith Ascii String.
From stdpp Require Import base option list strings gmap fin_maps pretty.

Open Scope string_scope.

(** ** Go errors *)

Inductive Errno :=
  | ENOENT | EACCES | ENOTDIR | EISDIR | EEXIST | ENOTEMPTY | EADDRINUSE.

(** [errors_New] is [errors.New] and [fmt.Errorf] without [%w];
    [fmt_Wrap msg e] is [fmt.Errorf(msg + ": %w", e)]; [PathError] is
    [*fs.PathError]; [OpError] is [*net.OpError]. *)
Inductive error :=
  | errors_New (msg : string)
  | fmt_Wrap (msg : string) (inner : error)
  | PathError (op path : string) (errno : Errno)
  | OpError (op addr : string) (errno : Errno).

(** A Go [(T, error)] result. *)
Inductive result (A : Type) :=
  | Ok (a : A)
  | Err (e : error).
Arguments Ok {A} a.
Arguments Err {A} e.

(** [os.IsNotExist]: looks through [*PathError] only, never through an
    error wrapped with [%w]. *)
Definition os_IsNotExist (e : error) : bool :=
  match e with
  | PathError _ _ ENOENT => true
  | _ => false
  end.

(** ** Paths: [path/filepath] on a Unix system *)

(** The components of a path between its separators. *)
Fixpoint components (s : string) : list string :=
  match s with
  | EmptyString => [EmptyString]
  | String c s' =>
      if Ascii.eqb c "/"%char then EmptyString :: components s'
      else match components s' with
           | h :: t => String c h :: t
           | [] => [String c EmptyString]
           end
  end.

Definition is_rooted (s : string) : bool :=
  match s with
  | String c _ => Ascii.eqb c "/"%char
  | EmptyString => false
  end.

(** One component of [filepath.Clean]; [stack] holds the components kept so
    far, the last one first. *)
Definition clean_step (rooted : bool) (stack : list string) (c : string)
  : list string :=
  if decide (c = "") then stack
  else if decide (c = ".") then stack
  else if decide (c = "..") then
    match stack with
    | top :: rest => if decide (top = "..") then c :: stack else rest
    | [] => if rooted then [] else [c]
    end
  else c :: stack.

Definition filepath_Clean (s : string) : string :=
  if decide (s = "") then "."
  else
    let rooted := is_rooted s in
    let out := rev (fold_left (clean_step rooted) (components s) []) in
    let body := String.concat "/" out in
    if rooted then "/" ++ body
    else if decide (body = "") then "." else body.

Fixpoint drop_empty (elems : list string) : list string :=
  match elems with
  | [] => []
  | e :: rest => if decide (e = "") then drop_empty rest else elems
  end.

Definition filepath_Join (elems : list string) : string :=
  match drop_empty elems with
  | [] => ""
  | rest => filepath_Clean (String.concat "/" rest)
  end.

(** [filepath.Dir]: the path up to its last separator, cleaned. *)
Definition filepath_Dir (p : string) : string :=
  match removelast (components p) with
  | [] => filepath_Clean ""
  | cs => filepath_Clean (String.concat "/" cs ++ "/")
  end.

(** A cleaned path followed by its ancestors, nearest first, without the
    root: the directories [os.MkdirAll] visits. *)
Definition path_chain (p : string) : list string :=
  let cs := components p in
  filter (λ q, q ≠ "")
    (map (λ k, String.concat "/" (take k cs)) (rev (seq 1 (length cs)))).

(** ** The world: environment, file system, loopback port *)

Record File := { mode : N; content : string }.

(** [denied] holds the paths on which every system call fails with
    [EACCES]; [port8089] tells whether some listener is bound to the
    callback port. *)
Record World := {
  HOME : string;
  files : gmap string File;
  dirs : gmap string N;
  denied : gset string;
  port8089 : bool
}.

Definition set_files (f : gmap string File → gmap string File) (w : World)
  : World :=
  {| HOME := HOME w; files := f (files w); dirs := dirs w;
     denied := denied w; port8089 := port8089 w |}.

Definition set_dirs (f : gmap string N → gmap string N) (w : World) : World :=
  {| HOME := HOME w; files := files w; dirs := f (dirs w);
     denied := denied w; port8089 := port8089 w |}.

Definition set_port (b : bool) (w : World) : World :=
  {| HOME := HOME w; files := files w; dirs := dirs w;
     denied := denied w; port8089 := b |}.

(** The root and the working directory always exist. *)
Definition is_dir (w : World) (p : string) : bool :=
  bool_decide (p = "/") || bool_decide (p = ".")
  || bool_decide (is_Some (dirs w !! p)).

Definition is_file (w : World) (p : string) : bool :=
  bool_decide (is_Some (files w !! p)).

Definition is_denied (w : World) (p : string) : bool :=
  bool_decide (p ∈ denied w).

(** [os.UserHomeDir] on Unix. *)
Definition os_UserHomeDir (w : World) : result string :=
  if decide (HOME w = "") then Err (errors_New "$HOME is not defined")
  else Ok (HOME w).

Definition os_ReadFile (p : string) (w : World) : result string :=
  if is_denied w p then Err (PathError "open" p EACCES)
  else match files w !! p with
       | Some f => Ok (content f)
       | None =>
           if is_dir w p then Err (PathError "read" p EISDIR)
           else Err (PathError "open" p ENOENT)
       end.

(** [os.Stat], as far as its error goes. *)
Definition os_Stat (p : string) (w : World) : result unit :=
  if is_denied w p then Err (PathError "stat" p EACCES)
  else if is_file w p || is_dir w p then Ok tt
  else Err (PathError "stat" p ENOENT).

(** ** Go functions as state transformers

    A function that may fail and may change the world; a Go function that
    returns only an [error] has type [M unit], and [Ok tt] is its [nil]. *)
Definition M (A : Type) : Type := World → result A * World.

Definition ret {A} (a : A) : M A := λ w, (Ok a, w).
Definition fail {A} (e : error) : M A := λ w, (Err e, w).
Definition bind {A B} (m : M A) (k : A → M B) : M B :=
  λ w, match m w with
       | (Ok a, w') => k a w'
       | (Err e, w') => (Err e, w')
       end.

(** A call that only reads the world. *)
Definition lift {A} (f : World → result A) : M A := λ w, (f w, w).
(** A library call that does not touch the world. *)
Definition pure {A} (r : result A) : M A := λ w, (r, w).
(** [fmt.Errorf(msg + ": %w", err)] on the error path. *)
Definition wrap {A} (msg : string) (m : M A) : M A :=
  λ w, match m w with
       | (Err e, w') => (Err (fmt_Wrap msg e), w')
       | r => r
       end.
(** A call whose error is dropped. *)
Definition ignore {A} (m : M A) : M unit := λ w, (Ok tt, snd (m w)).

Notation "'let*' x := m 'in' k" := (bind m (λ x, k))
  (at level 10, x pattern, m at level 100, k at level 200).
Notation "m ;; k" := (bind m (λ _, k))
  (at level 100, k at level 200, right associativity).

Definition os_Mkdir (p : string) (perm : N) : M unit := λ w,
  if is_denied w p then (Err (PathError "mkdir" p EACCES), w)
  else if is_file w p || is_dir w p then (Err (PathError "mkdir" p EEXIST), w)
  else if negb (is_dir w (filepath_Dir p)) then
    (Err (PathError "mkdir" p ENOENT), w)
  else (Ok tt, set_dirs (insert p perm) w).

(** [os.MkdirAll] along a chain [p :: ancestors of p]: nothing to do when
    [p] is a directory, an error when it is a file, otherwise the parents
    first and then [p]. *)
Fixpoint mkdir_chain (chain : list string) (perm : N) : M unit := λ w,
  match chain with
  | [] => (Ok tt, w)
  | p :: parents =>
      if negb (is_denied w p) && is_dir w p then (Ok tt, w)
      else if negb (is_denied w p) && is_file w p then
        (Err (PathError "mkdir" p ENOTDIR), w)
      else (mkdir_chain parents perm ;; os_Mkdir p perm) w
  end.

Definition os_MkdirAll (p : string) (perm : N) : M unit :=
  mkdir_chain (path_chain p) perm.

(** [os.WriteFile]: creates the file with [perm], or truncates an existing
    one and keeps its mode. *)
Definition os_WriteFile (p : string) (data : string) (perm : N) : M unit :=
  λ w,
  if is_denied w p then (Err (PathError "open" p EACCES), w)
  else if is_dir w p then (Err (PathError "open" p EISDIR), w)
  else if negb (is_dir w (filepath_Dir p)) then
    (Err (PathError "open" p ENOENT), w)
  else
    let m := match files w !! p with Some f => mode f | None => perm end in
    (Ok tt, set_files (insert p {| mode := m; content := data |}) w).

Definition has_entries (w : World) (d : string) : bool :=
  existsb (λ k, bool_decide (filepath_Dir k = d))
    (elements (dom (files w)) ++ elements (dom (dirs w))).

(** [os.Remove]: unlinks a file or removes an empty directory. *)
Definition os_Remove (p : string) : M unit := λ w,
  if is_denied w p then (Err (PathError "remove" p EACCES), w)
  else if is_file w p then (Ok tt, set_files (delete p) w)
  else if bool_decide (is_Some (dirs w !! p)) then
    if has_entries w p then (Err (PathError "remove" p ENOTEMPTY), w)
    else (Ok tt, set_dirs (delete p) w)
  else (Err (PathError "remove" p ENOENT), w).

(** ** Data of [config.go] and of the OAuth library *)

Record AccountConfig := { Name : string; Email : string }.

(** [Config]; [LoadConfig] never returns a nil [Accounts] map. *)
Record Config := { Accounts : gmap string AccountConfig }.

(** [oauth2.Token], its exported fields; [Expiry] is an instant. *)
Record Token := {
  AccessToken : string;
  TokenType : string;
  RefreshToken : string;
  Expiry : Z
}.

(** [oauth2.Config]. *)
Record OAuthConfig := {
  ClientID : string;
  ClientSecret : string;
  AuthURL : string;
  TokenURL : string;
  RedirectURL : string;
  Scopes : list string
}.

Definition with_RedirectURL (url : string) (c : OAuthConfig) : OAuthConfig :=
  {| ClientID := ClientID c; ClientSecret := ClientSecret c;
     AuthURL := AuthURL c; TokenURL := TokenURL c;
     RedirectURL := url; Scopes := Scopes c |}.

(** The libraries and the provider the program calls: [encoding/json] at
    the two types it is used at ([json_Unmarshal_Config] gives the decoded
    [Accounts] field, [None] when it is nil), [google.ConfigFromJSON], the
    code-for-token exchange and the calendar API. *)
Class Platform := {
  json_Unmarshal_Config : string → result (option (gmap string AccountConfig));
  json_MarshalIndent_Config : Config → result string;
  json_Unmarshal_Token : string → result Token;
  json_MarshalIndent_Token : Token → result string;
  google_ConfigFromJSON : string → list string → result OAuthConfig;
  oauth2_Exchange : OAuthConfig → string → result Token;
  calendar_NewService : OAuthConfig → Token → result unit;
  CalendarList_Get_primary : OAuthConfig → Token → result string
}.

(** ** [strings.TrimSpace] on byte strings

    White space is what [unicode.IsSpace] accepts, in its UTF-8 encoding:
    the six ASCII characters, U+0085, U+00A0, U+1680, U+2000 to U+200A,
    U+2028, U+2029, U+202F, U+205F and U+3000. *)

Definition space1 (a : N) : bool :=
  ((9 <=? a) && (a <=? 13) || (a =? 32))%N.

Definition space2 (a b : N) : bool :=
  ((a =? 194) && ((b =? 133) || (b =? 160)))%N.

Definition space3 (a b c : N) : bool :=
  ((a =? 225) && (b =? 154) && (c =? 128)
   || (a =? 226) && (b =? 128)
      && ((128 <=? c) && (c <=? 138) || (c =? 168) || (c =? 169) || (c =? 175))
   || (a =? 226) && (b =? 129) && (c =? 159)
   || (a =? 227) && (b =? 128) && (c =? 128))%N.

(** Drops the white space at the front of [s]; with [back], [s] is a
    reversed string and the encodings are read backwards. *)
Fixpoint trim_front (back : bool) (s : list ascii) : list ascii :=
  match s with
  | [] => []
  | a :: s1 =>
      if space1 (N_of_ascii a) then trim_front back s1
      else match s1 with
           | [] => s
           | b :: s2 =>
               if (if back then space2 (N_of_ascii b) (N_of_ascii a)
                   else space2 (N_of_ascii a) (N_of_ascii b))
               then trim_front back s2
               else match s2 with
                    | [] => s
                    | c :: s3 =>
                        if (if back
                            then space3 (N_of_ascii c) (N_of_ascii b)
                                        (N_of_ascii a)
                            else space3 (N_of_ascii a) (N_of_ascii b)
                                        (N_of_ascii c))
                        then trim_front back s3
                        else s
                    end
           end
  end.

Definition strings_TrimSpace (s : string) : string :=
  string_of_list_ascii
    (rev (trim_front true (rev (trim_front false (list_ascii_of_string s))))).

(** ** [config.go] *)

Section Program.
Context `{Platform}.

Definition GetConfigDir : M string :=
  let* homeDir := wrap "failed to get home directory" (lift os_UserHomeDir) in
  ret (filepath_Join [homeDir; ".config"; "gcal-readonly-mcp"]).

Definition GetTokenPath (accountName : string) : M string :=
  let* configDir := GetConfigDir in
  ret (filepath_Join [configDir; "tokens"; accountName ++ ".json"]).

Definition GetCredentialsPath : M string :=
  let* configDir := GetConfigDir in
  ret (filepath_Join [configDir; "credentials.json"]).

Definition LoadConfig : M Config :=
  let* configDir := GetConfigDir in
  let configPath := filepath_Join [configDir; "config.json"] in
  λ w,
    match os_ReadFile configPath w with
    | Err err =>
        if os_IsNotExist err then (Ok {| Accounts := ∅ |}, w)
        else (Err (fmt_Wrap "failed to read config" err), w)
    | Ok data =>
        match json_Unmarshal_Config data with
        | Err err => (Err (fmt_Wrap "failed to parse config" err), w)
        | Ok accounts => (Ok {| Accounts := default ∅ accounts |}, w)
        end
    end.

Definition SaveConfig (config : Config) : M unit :=
  let* configDir := GetConfigDir in
  wrap "failed to create config directory" (os_MkdirAll configDir 448) ;;
  let tokensDir := filepath_Join [configDir; "tokens"] in
  wrap "failed to create tokens directory" (os_MkdirAll tokensDir 448) ;;
  let* data :=
    wrap "failed to marshal config" (pure (json_MarshalIndent_Config config)) in
  let configPath := filepath_Join [configDir; "config.json"] in
  wrap "failed to write config" (os_WriteFile configPath data 384).

Definition RemoveAccount (name : string) : M unit :=
  let* config := LoadConfig in
  match Accounts config !! name with
  | None => fail (errors_New ("account '" ++ name ++ "' not found"))
  | Some _ =>
      let* tokenPath := GetTokenPath name in
      ignore (os_Remove tokenPath) ;;
      SaveConfig {| Accounts := delete name (Accounts config) |}
  end.

(** ** [auth.go]: configuration and token store *)

Definition oauthScopes : list string :=
  ["https://www.googleapis.com/auth/calendar.readonly"].

Definition GetOAuthConfig : M OAuthConfig :=
  let* credPath := GetCredentialsPath in
  let* data :=
    wrap "failed to read credentials file" (lift (os_ReadFile credPath)) in
  wrap "failed to parse credentials"
    (pure (google_ConfigFromJSON data oauthScopes)).

Definition LoadToken (accountName : string) : M Token :=
  let* tokenPath := GetTokenPath accountName in
  let* data := lift (os_ReadFile tokenPath) in
  wrap "failed to parse token" (pure (json_Unmarshal_Token data)).

Definition SaveToken (accountName : string) (token : Token) : M unit :=
  let* tokenPath := GetTokenPath accountName in
  let* data :=
    wrap "failed to marshal token" (pure (json_MarshalIndent_Token token)) in
  wrap "failed to create token directory"
    (os_MkdirAll (filepath_Dir tokenPath) 448) ;;
  wrap "failed to write token" (os_WriteFile tokenPath data 384).

End Program.

(** ** One authorization session

    The goroutines of [PerformOAuthFlow] and their two buffered channels.
    [codeChan] carries the codes of the callback handler and of the manual
    reader, [errChan] the errors of the handler and of the server.  Each has
    one slot; a send that finds the slot taken parks its goroutine in the
    channel's queue, and a send that finds the coordinator waiting in its
    [select] hands the value over directly. *)

Inductive Source := FromCallback | FromManual.

Inductive Signal :=
  | SigCode (src : Source) (code : string)
  | SigErr (e : error)
  | SigTimeout.

Inductive ServerState := NotBound | Listening | Closed.

(** The coordinator: before its [select], waiting in it, past it with the
    case that fired, and after it has closed the server. *)
Inductive CoordState :=
  | BeforeSelect
  | InSelect
  | Selected (sig : Signal)
  | Finished (sig : Signal).

(** What [reader.ReadString] returns: a whole line with its delimiter, or
    the bytes read so far and an error. *)
Inductive ReadResult :=
  | ReadLine (line : string)
  | ReadErr (partial : string) (e : error).

Record Session := {
  codeChan : option (Source * string);
  errChan : option error;
  codeSendq : list (Source * string);
  errSendq : list error;
  server : ServerState;
  portBusy : bool;
  readerDone : bool;
  coord : CoordState;
  responses : list N
}.

Definition session_init (busy : bool) : Session :=
  {| codeChan := None; errChan := None; codeSendq := []; errSendq := [];
     server := NotBound; portBusy := busy; readerDone := false;
     coord := BeforeSelect; responses := [] |}.

Inductive event :=
  | EvListen
  | EvAcceptError (e : error)
  | EvCallback (code : string)
  | EvStdin (r : ReadResult)
  | EvTimer
  | EvCoordinator (pick : bool).

Definition set_coord (c : CoordState) (s : Session) : Session :=
  {| codeChan := codeChan s; errChan := errChan s; codeSendq := codeSendq s;
     errSendq := errSendq s; server := server s; portBusy := portBusy s;
     readerDone := readerDone s; coord := c; responses := responses s |}.

Definition set_server (v : ServerState) (s : Session) : Session :=
  {| codeChan := codeChan s; errChan := errChan s; codeSendq := codeSendq s;
     errSendq := errSendq s; server := v; portBusy := portBusy s;
     readerDone := readerDone s; coord := coord s; responses := responses s |}.

Definition set_code (b : option (Source * string)) (q : list (Source * string))
  (s : Session) : Session :=
  {| codeChan := b; errChan := errChan s; codeSendq := q;
     errSendq := errSendq s; server := server s; portBusy := portBusy s;
     readerDone := readerDone s; coord := coord s; responses := responses s |}.

Definition set_err (b : option error) (q : list error) (s : Session)
  : Session :=
  {| codeChan := codeChan s; errChan := b; codeSendq := codeSendq s;
     errSendq := q; server := server s; portBusy := portBusy s;
     readerDone := readerDone s; coord := coord s; responses := responses s |}.

Definition set_readerDone (s : Session) : Session :=
  {| codeChan := codeChan s; errChan := errChan s; codeSendq := codeSendq s;
     errSendq := errSendq s; server := server s; portBusy := portBusy s;
     readerDone := true; coord := coord s; responses := responses s |}.

Definition respond (status : N) (s : Session) : Session :=
  {| codeChan := codeChan s; errChan := errChan s; codeSendq := codeSendq s;
     errSendq := errSendq s; server := server s; portBusy := portBusy s;
     readerDone := readerDone s; coord := coord s;
     responses := responses s ++ [status] |}.

(** [codeChan <- v]. *)
Definition send_code (v : Source * string) (s : Session) : Session :=
  match coord s with
  | InSelect => set_coord (Selected (SigCode (fst v) (snd v))) s
  | _ =>
      match codeChan s with
      | None => set_code (Some v) (codeSendq s) s
      | Some _ => set_code (codeChan s) (codeSendq s ++ [v]) s
      end
  end.

(** [errChan <- e]. *)
Definition send_err (e : error) (s : Session) : Session :=
  match coord s with
  | InSelect => set_coord (Selected (SigErr e)) s
  | _ =>
      match errChan s with
      | None => set_err (Some e) (errSendq s) s
      | Some _ => set_err (errChan s) (errSendq s ++ [e]) s
      end
  end.

(** A receive frees the slot, which the first parked sender then fills. *)
Definition recv_code (s : Session) : Session :=
  match codeSendq s with
  | [] => set_code None [] s
  | v :: q => set_code (Some v) q s
  end.

Definition recv_err (s : Session) : Session :=
  match errSendq s with
  | [] => set_err None [] s
  | e :: q => set_err (Some e) q s
  end.

(** The handler of [/callback]. *)
Definition handle_callback (code : string) (s : Session) : Session :=
  if decide (code = "") then
    send_err (errors_New "no code in callback") (respond 400 s)
  else send_code (FromCallback, code) (respond 200 s).

(** The goroutine that reads the manual input: the code it sends, if any. *)
Definition manual_code (r : ReadResult) : option string :=
  match r with
  | ReadLine line =>
      let input := strings_TrimSpace line in
      if decide (input = "") then None else Some input
  | ReadErr _ _ => None
  end.

(** The coordinator reaches its [select], or goes on after it. *)
Definition coordinator (pick : bool) (s : Session) : Session :=
  match coord s with
  | BeforeSelect =>
      match codeChan s, errChan s with
      | None, None => set_coord InSelect s
      | Some v, None =>
          set_coord (Selected (SigCode (fst v) (snd v))) (recv_code s)
      | None, Some e => set_coord (Selected (SigErr e)) (recv_err s)
      | Some v, Some e =>
          if pick
          then set_coord (Selected (SigCode (fst v) (snd v))) (recv_code s)
          else set_coord (Selected (SigErr e)) (recv_err s)
      end
  | InSelect => s
  | Selected sig => set_coord (Finished sig) (set_server Closed s)
  | Finished _ => s
  end.

Definition step (s : Session) (e : event) : Session :=
  match e with
  | EvListen =>
      match server s with
      | NotBound =>
          if portBusy s then
            send_err (fmt_Wrap "server error"
                        (OpError "listen" ":8089" EADDRINUSE))
              (set_server Closed s)
          else set_server Listening s
      | _ => s
      end
  | EvAcceptError err =>
      match server s with
      | Listening => send_err (fmt_Wrap "server error" err) (set_server Closed s)
      | _ => s
      end
  | EvCallback code =>
      match server s with
      | Listening => handle_callback code s
      | _ => s
      end
  | EvStdin r =>
      if readerDone s then s
      else match manual_code r with
           | Some c => send_code (FromManual, c) (set_readerDone s)
           | None => set_readerDone s
           end
  | EvTimer =>
      match coord s with
      | InSelect => set_coord (Selected SigTimeout) s
      | _ => s
      end
  | EvCoordinator pick => coordinator pick s
  end.

Definition run (s : Session) (evs : list event) : Session :=
  fold_left step evs s.

(** When the environment has nothing more to offer, the coordinator runs,
    the timer fires and the coordinator runs again. *)
Definition closing : list event := [EvCoordinator true; EvTimer; EvCoordinator true].

Definition outcome (s : Session) : Signal :=
  match coord s with
  | Selected sig | Finished sig => sig
  | BeforeSelect | InSelect => SigTimeout
  end.

Definition is_listening (s : Session) : bool :=
  match server s with Listening => true | _ => false end.

(** The session of one flow, from the start of the server to the return of
    the coordinator: the signal it ends with, and the port. *)
Definition session (evs : list event) : M Signal := λ w,
  let s := run (session_init (port8089 w)) (evs ++ closing) in
  (Ok (outcome s), set_port (port8089 w || is_listening s) w).

(** ** [PerformOAuthFlow] and [AddAccount] *)

Section Flow.
Context `{Platform}.

Definition PerformOAuthFlow (accountName : string) (evs : list event)
  : M string :=
  let* config := GetOAuthConfig in
  let config := with_RedirectURL "http://localhost:8089/callback" config in
  let* sig := session evs in
  match sig with
  | SigErr err => fail err
  | SigTimeout => fail (errors_New "timeout waiting for authorization")
  | SigCode _ code =>
      let* token :=
        wrap "failed to exchange code for token"
          (pure (oauth2_Exchange config code)) in
      SaveToken accountName token ;;
      wrap "failed to create calendar service"
        (pure (calendar_NewService config token)) ;;
      let* calId :=
        wrap "failed to get primary calendar"
          (pure (CalendarList_Get_primary config token)) in
      ret calId
  end.

Definition AddAccount (name : string) (evs : list event) : M unit :=
  let* config := LoadConfig in
  match Accounts config !! name with
  | Some _ => fail (errors_New ("account '" ++ name ++ "' already exists"))
  | None =>
      let* credPath := GetCredentialsPath in
      let* _ := λ w,
        match os_Stat credPath w with
        | Err err =>
            if os_IsNotExist err then
              let configDir :=
                match GetConfigDir w with (Ok d, _) => d | _ => "" end in
              (Err (errors_New
                      ("credentials.json not found. Please place your Google OAuth credentials at: "
                       ++ filepath_Join [configDir; "credentials.json"])), w)
            else (Ok tt, w)
        | Ok _ => (Ok tt, w)
        end in
      let* email := wrap "OAuth flow failed" (PerformOAuthFlow name evs) in
      SaveConfig
        {| Accounts := <[name := {| Name := name; Email := email |}]>
                         (Accounts config) |}
  end.

End Flow.

(** ** Observations on a world *)

Section Observations.
Context `{Platform}.

(** The account has a token file. *)
Definition token_file_exists (w : World) (a : string) : Prop :=
  ∃ p, GetTokenPath a w = (Ok p, w) ∧ is_Some (files w !! p).

(** The account is listed in the configuration on disk. *)
Definition listed (w : World) (a : string) : Prop :=
  ∃ cfg, LoadConfig w = (Ok cfg, w) ∧ is_Some (Accounts cfg !! a).


(** The result of the exchange the flow performs, when it gets that far. *)
Definition flow_exchange (evs : list event) (w : World)
  : option (result Token) :=
  match GetOAuthConfig w with
  | (Ok c, _) =>
      match outcome (run (session_init (port8089 w)) (evs ++ closing)) with
      | SigCode _ code =>
          Some (oauth2_Exchange
                  (with_RedirectURL "http://localhost:8089/callback" c) code)
      | _ => None
      end
  | _ => None
  end.

End Observations.

(** The environment of the file system is the same in both worlds. *)
Definition same_env (w w' : World) : Prop :=
  HOME w' = HOME w ∧ denied w' = denied w ∧ port8089 w' = port8089 w.



(** No code and no error has reached the coordinator. *)
Definition still_waiting (s : Session) : Prop :=
  match coord s with
  | InSelect => True
  | BeforeSelect => codeChan s = None ∧ errChan s = None
  | _ => False
  end.

(** An event that sends nothing when the port is free: no callback request,
    no failure of the server, no manual line with a code in it. *)
Definition quiet (e : event) : bool :=
  match e with
  | EvCallback _ | EvAcceptError _ => false
  | EvStdin r => bool_decide (manual_code r = None)
  | EvListen | EvTimer | EvCoordinator _ => true
  end.

(** Nothing has been sent, and the coordinator waits or has been woken by
    the timer. *)
Definition heading_for_timeout (s : Session) : Prop :=
  portBusy s = false ∧ codeChan s = None ∧ errChan s = None
  ∧ match coord s with
    | BeforeSelect | InSelect => True
    | Selected sig | Finished sig => sig = SigTimeout
    end.


(** What holds in every state of a session: a coordinator that has
    finished has closed the server; while it waits in its [select] both
    slots are free; goroutines are parked on a channel only while its slot
    is taken. *)
Definition session_inv (s : Session) : Prop :=
  (∀ sig, coord s = Finished sig → server s = Closed)
  ∧ (coord s = InSelect → codeChan s = None ∧ errChan s = None)
  ∧ (codeChan s = None → codeSendq s = [])
  ∧ (errChan s = None → errSendq s = []).

(** The manual codes still in the session: in the slot, in the queue, or
    with the coordinator. *)
Definition manual_in (v : Source * string) : nat :=
  match fst v with FromManual => 1 | FromCallback => 0 end.

Definition manual_count (s : Session) : nat :=
  from_option manual_in 0 (codeChan s)
  + list_sum (map manual_in (codeSendq s))
  + match coord s with
    | Selected (SigCode FromManual _) | Finished (SigCode FromManual _) => 1
    | _ => 0
    end.

(** The manual codes an event sends. *)
Definition manual_sent (s : Session) (e : event) : nat :=
  match e with
  | EvStdin r =>
      if readerDone s then 0
      else match manual_code r with Some _ => 1 | None => 0 end
  | _ => 0
  end.

(** ** A small platform and some worlds to run the program on *)

Global Instance AccountConfig_eq_dec : EqDecision AccountConfig.
Proof. solve_decision. Defined.
Global Instance Config_eq_dec : EqDecision Config.
Proof. solve_decision. Defined.
Global Instance Token_eq_dec : EqDecision Token.
Proof. solve_decision. Defined.

Definition tok0 : Token :=
  {| AccessToken := "ya29.a0"; TokenType := "Bearer";
     RefreshToken := "1//0g"; Expiry := 1793500000 |}.

Definition work_entry : AccountConfig :=
  {| Name := "work"; Email := "op@example.com" |}.

Definition cfg_work : Config := {| Accounts := {["work" := work_entry]} |}.

(** A platform whose JSON library knows two configurations and one token,
    whose provider accepts the code [abc123] when [exchange_up], and whose
    calendar API answers when [identity_up]. *)
Definition testPlatform (exchange_up identity_up : bool) : Platform :=
  {| json_Unmarshal_Config := λ data,
       if decide (data = "accounts:") then Ok (Some ∅)
       else if decide (data = "accounts: work op@example.com")
       then Ok (Some (Accounts cfg_work))
       else if decide (data = "null") then Ok None
       else Err (errors_New "invalid character");
     json_MarshalIndent_Config := λ cfg,
       if decide (Accounts cfg = ∅) then Ok "accounts:"
       else if decide (Accounts cfg = Accounts cfg_work)
       then Ok "accounts: work op@example.com"
       else Err (errors_New "json: unsupported value");
     json_Unmarshal_Token := λ data,
       if decide (data = "token ya29.a0 Bearer 1//0g 1793500000") then Ok tok0
       else Err (errors_New "invalid character");
     json_MarshalIndent_Token := λ t,
       if decide (t = tok0) then Ok "token ya29.a0 Bearer 1//0g 1793500000"
       else Err (errors_New "json: unsupported value");
     google_ConfigFromJSON := λ data scopes,
       if decide (data = "installed client")
       then Ok {| ClientID := "id"; ClientSecret := "secret";
                  AuthURL := "https://accounts.google.com/o/oauth2/auth";
                  TokenURL := "https://oauth2.googleapis.com/token";
                  RedirectURL := ""; Scopes := scopes |}
       else Err (errors_New "unexpected end of JSON input");
     oauth2_Exchange := λ _ code,
       if exchange_up && bool_decide (code = "abc123") then Ok tok0
       else Err (errors_New "oauth2: cannot fetch token");
     calendar_NewService := λ _ _, Ok tt;
     CalendarList_Get_primary := λ _ _,
       if identity_up then Ok "op@example.com"
       else Err (errors_New "googleapi: Error 403") |}.

Definition configDir0 : string := "/home/op/.config/gcal-readonly-mcp".

(** Credentials in place, no account configured yet. *)
Definition world0 : World :=
  {| HOME := "/home/op";
     files := {[ configDir0 ++ "/credentials.json" :=
                   {| mode := 384; content := "installed client" |} ]};
     dirs := {[ "/home" := 493%N ]} ∪ {[ "/home/op" := 448%N ]}
             ∪ {[ "/home/op/.config" := 448%N ]} ∪ {[ configDir0 := 448%N ]};
     denied := ∅;
     port8089 := false |}.

(** The same with the account [work] configured and its token stored. *)
Definition world1 : World :=
  {| HOME := "/home/op";
     files := {[ configDir0 ++ "/credentials.json" :=
                   {| mode := 384; content := "installed client" |} ]}
              ∪ {[ configDir0 ++ "/config.json" :=
                   {| mode := 384; content := "accounts: work op@example.com" |} ]}
              ∪ {[ configDir0 ++ "/tokens/work.json" :=
                   {| mode := 384;
                      content := "token ya29.a0 Bearer 1//0g 1793500000" |} ]};
     dirs := {[ "/home" := 493%N ]} ∪ {[ "/home/op" := 448%N ]}
             ∪ {[ "/home/op/.config" := 448%N ]} ∪ {[ configDir0 := 448%N ]}
             ∪ {[ configDir0 ++ "/tokens" := 448%N ]};
     denied := ∅;
     port8089 := false |}.

(** [work] is configured but its token file is missing. *)
Definition world2 : World :=
  set_files (delete (configDir0 ++ "/tokens/work.json")) world1.


Definition newline : string := String "010"%char "".

(** The browser redirect arrives with a code while the coordinator waits. *)
Definition callback_run : list event :=
  [EvListen; EvCoordinator true; EvCallback "abc123"].

(** ** The calendar tools: data

    Go slices are nil or hold a list; [append] to a nil slice gives a slice
    that is not nil. *)

Definition slice (A : Type) : Type := option (list A).

Definition elems {A} (s : slice A) : list A := default [] s.

Definition append {A} (s : slice A) (x : A) : slice A :=
  Some (elems s ++ [x])%list.

(** The structures of the calendar library that the program reads. *)
Record CalendarListEntry := {
  Entry_Id : string;
  Entry_Summary : string;
  Entry_Description : string;
  Entry_Primary : bool
}.

Record EventDateTime := { DateTime : string; Date : string }.

Record EventAttendee := { Attendee_Email : string }.

Record EventOrganizer := { Organizer_Email : string }.

Record CalendarEvent := {
  Item_Id : string;
  Item_Summary : string;
  Item_Description : string;
  Item_Location : string;
  Item_Start : option EventDateTime;
  Item_End : option EventDateTime;
  Item_Attendees : list EventAttendee;
  Item_Organizer : option EventOrganizer;
  Item_Status : string;
  Item_HtmlLink : string
}.

Record TimePeriod := { Period_Start : string; Period_End : string }.

Record FreeBusyRequest := {
  Request_TimeMin : string;
  Request_TimeMax : string;
  Request_Items : list string
}.

(** An [Events.List] call as the program configures it. *)
Record EventsListCall := {
  Call_CalendarId : string;
  Call_TimeMin : string;
  Call_TimeMax : string;
  Call_MaxResults : Z;
  Call_SingleEvents : bool;
  Call_OrderBy : string;
  Call_Q : option string
}.

(** A [*calendar.Service]: the configuration and the token of its client. *)
Record Service := { Service_Config : OAuthConfig; Service_Token : Token }.

(** The package [time], the calendar API and the order in which [range]
    visits a map.  [Freebusy_Query] gives the calendars of the response in
    the order [range] visits them. *)
Class Services := {
  Time : Type;
  time_zero : Time;
  time_Parse : string → string → result Time;
  time_Format : string → Time → string;
  time_AddDate : Time → Z → Z → Z → Time;
  range_keys : gmap string AccountConfig → list string;
  range_keys_perm : ∀ m, range_keys m ≡ₚ elements (dom m);
  CalendarList_List : Service → result (list CalendarListEntry);
  Events_List : Service → EventsListCall → result (list CalendarEvent);
  Events_Get : Service → string → string → result CalendarEvent;
  Freebusy_Query :
    Service → FreeBusyRequest → result (list (string * list TimePeriod))
}.

Definition time_RFC3339 : string := "2006-01-02T15:04:05Z07:00".

(** [t, _ := time.Parse(layout, value)]: the zero time on an error. *)
Definition parse_or_zero `{Services} (layout value : string) : Time :=
  match time_Parse layout value with
  | Ok t => t
  | Err _ => time_zero
  end.

(** The tool structures of the server. *)
Record Calendar := {
  Calendar_ID : string;
  Calendar_Summary : string;
  Calendar_Description : string;
  Calendar_Primary : bool;
  Calendar_Account : string
}.

Record ListEventsInput := {
  Events_Account : string;
  Events_CalendarID : string;
  Events_TimeMin : string;
  Events_TimeMax : string;
  Events_MaxResults : Z;
  Events_Query : string
}.

Record Event `{Services} := {
  Event_ID : string;
  Event_Summary : string;
  Event_Description : string;
  Event_Location : string;
  Event_Start : Time;
  Event_End : Time;
  Event_AllDay : bool;
  Event_Attendees : slice string;
  Event_Organizer : string;
  Event_Status : string;
  Event_HtmlLink : string;
  Event_Account : string;
  Event_CalendarID : string
}.

Record CheckAvailabilityInput := {
  Availability_Account : string;
  Availability_Calendars : slice string;
  Availability_TimeMin : string;
  Availability_TimeMax : string
}.

Record BusyPeriod `{Services} := {
  Busy_Start : Time;
  Busy_End : Time;
  Busy_Account : string
}.

(** ** The calendar tools: [ListConfiguredAccounts], [GetCalendarService]
    and the functions of the calendar file *)

Section Tools.
Context `{Platform} `{Services}.

Definition ListConfiguredAccounts : M (list string) :=
  let* config := LoadConfig in
  ret (range_keys (Accounts config)).

Definition GetCalendarService (accountName : string) : M Service :=
  let* config := GetOAuthConfig in
  let* token :=
    wrap ("failed to load token for account '" ++ accountName ++ "'")
      (LoadToken accountName) in
  pure (match calendar_NewService config token with
        | Ok _ => Ok {| Service_Config := config; Service_Token := token |}
        | Err e => Err e
        end).

Definition getTargetAccounts (accountName : string) : M (list string) :=
  if decide (accountName = "") then ListConfiguredAccounts
  else ret [accountName].

Definition calendar_of (acc : string) (item : CalendarListEntry) : Calendar :=
  {| Calendar_ID := Entry_Id item;
     Calendar_Summary := Entry_Summary item;
     Calendar_Description := Entry_Description item;
     Calendar_Primary := Entry_Primary item;
     Calendar_Account := acc |}.

(** The loop of [GetCalendars] over the accounts. *)
Fixpoint GetCalendars_loop (accounts : list string) (calendars : slice Calendar)
  : M (slice Calendar) :=
  match accounts with
  | [] => ret calendars
  | acc :: rest =>
      let* srv :=
        wrap ("failed to get service for account '" ++ acc ++ "'")
          (GetCalendarService acc) in
      let* list :=
        wrap ("failed to list calendars for account '" ++ acc ++ "'")
          (pure (CalendarList_List srv)) in
      GetCalendars_loop rest
        (fold_left (λ cs item, append cs (calendar_of acc item)) list calendars)
  end.

Definition GetCalendars (accountName : string) : M (slice Calendar) :=
  let* accounts := getTargetAccounts accountName in
  GetCalendars_loop accounts None.

Definition parseEvent (item : CalendarEvent) (account calendarID : string)
  : Event :=
  let '(start, allDay) :=
    match Item_Start item with
    | Some st =>
        if decide (DateTime st = "") then
          if decide (Date st = "") then (time_zero, false)
          else (parse_or_zero "2006-01-02" (Date st), true)
        else (parse_or_zero time_RFC3339 (DateTime st), false)
    | None => (time_zero, false)
    end in
  let end_ :=
    match Item_End item with
    | Some en =>
        if decide (DateTime en = "") then
          if decide (Date en = "") then time_zero
          else parse_or_zero "2006-01-02" (Date en)
        else parse_or_zero time_RFC3339 (DateTime en)
    | None => time_zero
    end in
  let attendees :=
    fold_left (λ l att, append l (Attendee_Email att)) (Item_Attendees item)
      None in
  let organizer :=
    match Item_Organizer item with
    | Some o => Organizer_Email o
    | None => ""
    end in
  {| Event_ID := Item_Id item;
     Event_Summary := Item_Summary item;
     Event_Description := Item_Description item;
     Event_Location := Item_Location item;
     Event_Start := start;
     Event_End := end_;
     Event_AllDay := allDay;
     Event_Attendees := attendees;
     Event_Organizer := organizer;
     Event_Status := Item_Status item;
     Event_HtmlLink := Item_HtmlLink item;
     Event_Account := account;
     Event_CalendarID := calendarID |}.

(** The [maxResults] of [GetEvents]: 50 by default, 250 at most. *)
Definition events_maxResults (input : ListEventsInput) : Z :=
  let maxResults := Events_MaxResults input in
  let maxResults := if (maxResults <=? 0)%Z then 50%Z else maxResults in
  if (250 <? maxResults)%Z then 250%Z else maxResults.

(** The call that [GetEvents] makes for one account. *)
Definition events_call (input : ListEventsInput) (timeMin timeMax : Time)
  : EventsListCall :=
  let calendarID :=
    if decide (Events_CalendarID input = "") then "primary"
    else Events_CalendarID input in
  {| Call_CalendarId := calendarID;
     Call_TimeMin := time_Format time_RFC3339 timeMin;
     Call_TimeMax := time_Format time_RFC3339 timeMax;
     Call_MaxResults := events_maxResults input;
     Call_SingleEvents := true;
     Call_OrderBy := "startTime";
     Call_Q := if decide (Events_Query input = "") then None
               else Some (Events_Query input) |}.

Fixpoint GetEvents_loop (input : ListEventsInput) (timeMin timeMax : Time)
  (accounts : list string) (events : slice Event) : M (slice Event) :=
  match accounts with
  | [] => ret events
  | acc :: rest =>
      let* srv :=
        wrap ("failed to get service for account '" ++ acc ++ "'")
          (GetCalendarService acc) in
      let call := events_call input timeMin timeMax in
      let* result :=
        wrap ("failed to list events for account '" ++ acc ++ "'")
          (pure (Events_List srv call)) in
      GetEvents_loop input timeMin timeMax rest
        (fold_left
           (λ es item, append es (parseEvent item acc (Call_CalendarId call)))
           result events)
  end.

(** [GetEvents]; [now] is what [time.Now] returns. *)
Definition GetEvents (now : Time) (input : ListEventsInput) : M (slice Event) :=
  let* accounts := getTargetAccounts (Events_Account input) in
  let* timeMin :=
    if decide (Events_TimeMin input = "") then ret now
    else wrap "invalid time_min format"
           (pure (time_Parse time_RFC3339 (Events_TimeMin input))) in
  let* timeMax :=
    if decide (Events_TimeMax input = "") then ret (time_AddDate timeMin 0 0 7)
    else wrap "invalid time_max format"
           (pure (time_Parse time_RFC3339 (Events_TimeMax input))) in
  GetEvents_loop input timeMin timeMax accounts None.

Definition GetEvent (accountName calendarID eventID : string) : M Event :=
  let* srv := GetCalendarService accountName in
  let* item :=
    wrap "failed to get event" (pure (Events_Get srv calendarID eventID)) in
  ret (parseEvent item accountName calendarID).

Definition busy_of (acc : string) (busy : TimePeriod) : BusyPeriod :=
  {| Busy_Start := parse_or_zero time_RFC3339 (Period_Start busy);
     Busy_End := parse_or_zero time_RFC3339 (Period_End busy);
     Busy_Account := acc |}.

(** The request that [CheckAvailability] sends for one account. *)
Definition availability_request (input : CheckAvailabilityInput)
  (timeMin timeMax : Time) : FreeBusyRequest :=
  let calendars :=
    match elems (Availability_Calendars input) with
    | [] => ["primary"]
    | cs => cs
    end in
  {| Request_TimeMin := time_Format time_RFC3339 timeMin;
     Request_TimeMax := time_Format time_RFC3339 timeMax;
     Request_Items := calendars |}.

Fixpoint CheckAvailability_loop (input : CheckAvailabilityInput)
  (timeMin timeMax : Time) (accounts : list string)
  (busyPeriods : slice BusyPeriod) : M (slice BusyPeriod) :=
  match accounts with
  | [] => ret busyPeriods
  | acc :: rest =>
      let* srv :=
        wrap ("failed to get service for account '" ++ acc ++ "'")
          (GetCalendarService acc) in
      let req := availability_request input timeMin timeMax in
      let* result :=
        wrap ("failed to query free/busy for account '" ++ acc ++ "'")
          (pure (Freebusy_Query srv req)) in
      CheckAvailability_loop input timeMin timeMax rest
        (fold_left
           (λ bs cal,
              fold_left (λ bs busy, append bs (busy_of acc busy)) (snd cal) bs)
           result busyPeriods)
  end.

Definition CheckAvailability (input : CheckAvailabilityInput)
  : M (slice BusyPeriod) :=
  let* accounts := getTargetAccounts (Availability_Account input) in
  let* timeMin :=
    wrap "invalid time_min format"
      (pure (time_Parse time_RFC3339 (Availability_TimeMin input))) in
  let* timeMax :=
    wrap "invalid time_max format"
      (pure (time_Parse time_RFC3339 (Availability_TimeMax input))) in
  CheckAvailability_loop input timeMin timeMax accounts None.

End Tools.

(** ** The tool handlers

    A handler returns the text of its result and its output structure. *)

(** [if x == nil { x = []T{} }]. *)
Definition not_nil {A} (s : slice A) : slice A :=
  match s with
  | None => Some []
  | Some _ => s
  end.

Section Handlers.
Context `{Platform} `{Services}.

Definition handleListAccounts : M (string * slice string) :=
  let* accounts := wrap "failed to list accounts" ListConfiguredAccounts in
  let accounts := not_nil (Some accounts) in
  ret ("Found " ++ pretty (length (elems accounts))
       ++ " configured account(s): " ++ String.concat ", " (elems accounts),
       accounts).

Definition calendar_line (cal : Calendar) : string :=
  let primary := if Calendar_Primary cal then " (primary)" else "" in
  "- [" ++ Calendar_Account cal ++ "] " ++ Calendar_Summary cal ++ primary.

Definition handleListCalendars (account : string)
  : M (string * slice Calendar) :=
  let* calendars := wrap "failed to list calendars" (GetCalendars account) in
  let calendars := not_nil calendars in
  let lines :=
    fold_left (λ ls cal, append ls (calendar_line cal)) (elems calendars) None in
  ret ("Found " ++ pretty (length (elems calendars)) ++ " calendar(s):"
       ++ String "010"%char "" ++ String.concat (String "010"%char "") (elems lines),
       calendars).

Definition event_line (ev : Event) : string :=
  let timeStr :=
    if Event_AllDay ev
    then time_Format "2006-01-02" (Event_Start ev) ++ " (all day)"
    else time_Format "2006-01-02 15:04" (Event_Start ev) in
  "- [" ++ Event_Account ev ++ "] " ++ timeStr ++ ": " ++ Event_Summary ev.

Definition handleListEvents (now : Time) (input : ListEventsInput)
  : M (string * slice Event) :=
  let* events := wrap "failed to list events" (GetEvents now input) in
  let events := not_nil events in
  let lines :=
    fold_left (λ ls ev, append ls (event_line ev)) (elems events) None in
  let text := "Found " ++ pretty (length (elems events)) ++ " event(s)" in
  let text :=
    if (0 <? length (elems lines))%nat
    then text ++ ":" ++ String "010"%char ""
         ++ String.concat (String "010"%char "") (elems lines)
    else text in
  ret (text, events).

Definition handleGetEvent (account calendarID eventID : string)
  : M (string * Event) :=
  let* event :=
    wrap "failed to get event" (GetEvent account calendarID eventID) in
  ret ("Event: " ++ Event_Summary event ++ String "010"%char ""
       ++ "When: " ++ time_Format "2006-01-02 15:04" (Event_Start event)
       ++ " - " ++ time_Format "2006-01-02 15:04" (Event_End event)
       ++ String "010"%char ""
       ++ "Where: " ++ Event_Location event ++ String "010"%char ""
       ++ "Description: " ++ Event_Description event,
       event).

Definition busy_line (bp : BusyPeriod) : string :=
  "- [" ++ Busy_Account bp ++ "] "
  ++ time_Format "2006-01-02 15:04" (Busy_Start bp) ++ " - "
  ++ time_Format "2006-01-02 15:04" (Busy_End bp).

Definition handleCheckAvailability (input : CheckAvailabilityInput)
  : M (string * slice BusyPeriod) :=
  let* busyPeriods :=
    wrap "failed to check availability" (CheckAvailability input) in
  let busyPeriods := not_nil busyPeriods in
  let lines :=
    fold_left (λ ls bp, append ls (busy_line bp)) (elems busyPeriods) None in
  let text :=
    "Found " ++ pretty (length (elems busyPeriods)) ++ " busy period(s)" in
  let text :=
    if (0 <? length (elems lines))%nat
    then text ++ ":" ++ String "010"%char ""
         ++ String.concat (String "010"%char "") (elems lines)
    else text ++ " - you're free during this time range!" in
  ret (text, busyPeriods).

End Handlers.

(** ** The helpers of the tests *)

(** The loop of [containsHelper], [n] positions from [i] on. *)
Fixpoint containsHelper_from (n i : nat) (s substr : string) : bool :=
  match n with
  | 0 => false
  | S n' =>
      if String.eqb (substring i (String.length substr) s) substr then true
      else containsHelper_from n' (S i) s substr
  end.

Definition containsHelper (s substr : string) : bool :=
  containsHelper_from
    (Z.to_nat (Z.of_nat (String.length s) - Z.of_nat (String.length substr) + 1))
    0 s substr.

Definition contains (s substr : string) : bool :=
  (String.length substr <=? String.length s)%nat
  && (String.eqb s substr
      || (0 <? String.length s)%nat && containsHelper s substr).

(** ** Services and worlds to run the tools on *)

(** Services with a clock in seconds that knows three dates, a calendar
    list of one calendar, or of none when [empty], one event and one busy
    period. *)
Definition testServices (empty : bool) : Services :=
  {| Time := Z;
     time_zero := 0%Z;
     time_Parse := λ _ value,
       if decide (value = "2026-02-01T10:00:00Z") then Ok 1769940000%Z
       else if decide (value = "2026-02-01T11:00:00Z") then Ok 1769943600%Z
       else if decide (value = "2026-02-01") then Ok 1769904000%Z
       else Err (errors_New "parsing time: cannot parse");
     time_Format := λ _ t, pretty t;
     time_AddDate := λ t _ _ days, (t + 86400 * days)%Z;
     range_keys := λ m, elements (dom m);
     range_keys_perm := λ m, reflexivity _;
     CalendarList_List := λ _,
       if empty then Ok []
       else Ok [{| Entry_Id := "op@example.com"; Entry_Summary := "Work";
                   Entry_Description := ""; Entry_Primary := true |}];
     Events_List := λ _ _,
       if empty then Ok []
       else Ok [{| Item_Id := "e1"; Item_Summary := "Review";
                   Item_Description := ""; Item_Location := "";
                   Item_Start :=
                     Some {| DateTime := "2026-02-01T10:00:00Z"; Date := "" |};
                   Item_End :=
                     Some {| DateTime := "2026-02-01T11:00:00Z"; Date := "" |};
                   Item_Attendees := [{| Attendee_Email := "a@example.com" |}];
                   Item_Organizer := None; Item_Status := "confirmed";
                   Item_HtmlLink := "" |}];
     Events_Get := λ _ _ _, Err (errors_New "googleapi: Error 404");
     Freebusy_Query := λ _ _,
       if empty then Ok [("primary", [])]
       else Ok [("primary",
                 [{| Period_Start := "2026-02-01T10:00:00Z";
                     Period_End := "2026-02-01T11:00:00Z" |}])] |}.


Definition availability0 : CheckAvailabilityInput :=
  {| Availability_Account := "work"; Availability_Calendars := None;
     Availability_TimeMin := "2026-02-01T10:00:00Z";
     Availability_TimeMax := "2026-02-01T11:00:00Z" |}.

(** A request for the events of one account with every default. *)
Definition events0 : ListEventsInput :=
  {| Events_Account := "work"; Events_CalendarID := "";
     Events_TimeMin := ""; Events_TimeMax := "";
     Events_MaxResults := 0; Events_Query := "" |}.

(** The configuration that the test platform reads from the credentials
    file. *)
Definition oauth0 : OAuthConfig :=
  {| ClientID := "id"; ClientSecret := "secret";
     AuthURL := "https://accounts.google.com/o/oauth2/auth";
     TokenURL := "https://oauth2.googleapis.com/token";
     RedirectURL := ""; Scopes := oauthScopes |}.

(** ** Further observations *)

(** An account name that is a single path component. *)
Definition no_slash (a : string) : bool :=
  forallb (λ c, negb (Ascii.eqb c "/"%char)) (list_ascii_of_string a).

(** A component that [filepath.Clean] keeps as it is. *)
Definition kept (x : string) : Prop :=
  no_slash x = true ∧ x ≠ "" ∧ x ≠ "." ∧ x ≠ "..".

(** The coordinator's [select] has fired with [sig]. *)
Definition decided (sig : Signal) (s : Session) : Prop :=
  coord s = Selected sig ∨ coord s = Finished sig.

(** The error [err] is in the slot of [errChan] with no code beside it and
    the coordinator has still to reach its [select], or the [select] has
    fired with it. *)
Definition failing_with (err : error) (s : Session) : Prop :=
  (coord s = BeforeSelect ∧ errChan s = Some err ∧ codeChan s = None)
  ∨ decided (SigErr err) s.

Example clean1 : filepath_Join ["/home/u"; ".config"; "gcal-readonly-mcp"] = "/home/u/.config/gcal-readonly-mcp".
Proof. reflexivity. Qed.
Example clean2 : filepath_Join ["/home/u/c"; "tokens"; "a/../b.json"] = "/home/u/c/tokens/b.json".
Proof. reflexivity. Qed.
Example clean3 : filepath_Clean "a/../../b//c/." = "../b/c".
Proof. reflexivity. Qed.
Example clean4 : filepath_Clean "/../a/" = "/a".
Proof. reflexivity. Qed.
Example dir1 : filepath_Dir "/home/u/c/tokens/b.json" = "/home/u/c/tokens".
Proof. reflexivity. Qed.
Example dir2 : filepath_Dir "b.json" = ".".
Proof. reflexivity. Qed.
Example dir3 : filepath_Dir "/b" = "/".
Proof. reflexivity. Qed.
Example chain1 : path_chain "/home/u/c" = ["/home/u/c"; "/home/u"; "/home"].
Proof. reflexivity. Qed.
Example chain2 : path_chain "a/b" = ["a/b"; "a"].
Proof. reflexivity. Qed.
Example trim1 : strings_TrimSpace ("  abc123 " ++ newline) = "abc123".
Proof. reflexivity. Qed.
Example trim2 : strings_TrimSpace (" a b" ++ String "009"%char newline) = "a b".
Proof. reflexivity. Qed.
(** U+00A0 and U+2003 are white space, a lone byte 194 is not. *)
Example trim3 :
  strings_TrimSpace
    (String "194"%char (String "160"%char
       ("x" ++ String "226"%char (String "128"%char (String "131"%char "")))))
  = "x".
Proof. reflexivity. Qed.
Example trim4 :
  strings_TrimSpace (String "194"%char " ") = String "194"%char "".
Proof. reflexivity. Qed.
Example manual1 : manual_code (ReadLine newline) = None.
Proof. reflexivity. Qed.
Example manual2 : manual_code (ReadErr "abc123" (errors_New "EOF")) = None.
Proof. reflexivity. Qed.
(** The first signal wins: the pasted code is handed to the waiting
    coordinator, the later callback code stays in the slot. *)
Example race1 :
  let s := run (session_init false)
             [EvListen; EvCoordinator true;
              EvStdin (ReadLine ("m1" ++ newline)); EvCallback "c1"] in
  outcome s = SigCode FromManual "m1" ∧ codeChan s = Some (FromCallback, "c1").
Proof. split; reflexivity. Qed.
(** A busy port ends the flow with the server error. *)
Example busy1 :
  outcome (run (session_init true) ([EvListen] ++ closing)) =
  SigErr (fmt_Wrap "server error" (OpError "listen" ":8089" EADDRINUSE)).
Proof. reflexivity. Qed.


(** Without the credentials file [AddAccount] stops before the flow and
    creates nothing. *)
Example add_without_credentials :
  let w := set_files (λ _, ∅) world0 in
  @AddAccount (testPlatform true true) "x" callback_run w =
  (Err (errors_New
          ("credentials.json not found. Please place your Google OAuth credentials at: "
           ++ configDir0 ++ "/credentials.json")), w).
Proof. vm_compute. reflexivity. Qed.

(** [SaveToken] creates the token directory for its owner only and the
    token file readable and writable by its owner only. *)
Example save_modes :
  let w := snd (@SaveToken (testPlatform true true) "work" tok0 world0) in
  dirs w !! (configDir0 ++ "/tokens") = Some 448%N
  ∧ mode <$> files w !! (configDir0 ++ "/tokens/work.json") = Some 384%N.
Proof. split; vm_compute; reflexivity. Qed.

(** A second flow for the same account overwrites its token file. *)
Example flow_twice :
  let w1 := snd (@PerformOAuthFlow (testPlatform true true) "work"
                   callback_run world0) in
  @PerformOAuthFlow (testPlatform true true) "work" callback_run w1 =
  (Ok "op@example.com", w1).
Proof. vm_compute. reflexivity. Qed.

(** ** The monad and the paths *)

Ltac unfold_M := unfold bind, wrap, lift, pure, ret, fail, ignore in *.

Lemma bind_Ok {A B} (m : M A) (k : A → M B) w b w' :
  bind m k w = (Ok b, w') →
  ∃ a w1, m w = (Ok a, w1) ∧ k a w1 = (Ok b, w').
Proof.
  unfold bind. destruct (m w) as [[a|e] w1]; intros Hk; [eauto | discriminate].
Qed.

Lemma wrap_Ok {A} msg (m : M A) w a w' :
  wrap msg m w = (Ok a, w') → m w = (Ok a, w').
Proof.
  unfold wrap. destruct (m w) as [[a0|e] w1]; intros Hk; [done | discriminate].
Qed.

Lemma pure_inv {A} (r r' : result A) w w' :
  pure r w = (r', w') → r' = r ∧ w' = w.
Proof. unfold pure. intros [= <- <-]. done. Qed.

Section Paths.
Context `{Platform}.

Lemma GetConfigDir_inv w r w1 :
  GetConfigDir w = (r, w1) →
  w1 = w ∧ ∀ w', HOME w' = HOME w → GetConfigDir w' = (r, w').
Proof.
  unfold GetConfigDir, os_UserHomeDir. unfold_M. intros Hg. split.
  - destruct (decide (HOME w = "")); by inversion Hg.
  - intros w' Hw. rewrite Hw.
    destruct (decide (HOME w = "")); by inversion Hg.
Qed.

Lemma GetTokenPath_inv a w r w1 :
  GetTokenPath a w = (r, w1) →
  w1 = w ∧ ∀ w', HOME w' = HOME w → GetTokenPath a w' = (r, w').
Proof.
  unfold GetTokenPath, bind at 1. intros Hg.
  destruct (GetConfigDir w) as [rd wd] eqn:Hd.
  destruct (GetConfigDir_inv _ _ _ Hd) as [-> Hst]. split.
  - destruct rd; unfold ret in Hg; by inversion Hg.
  - intros w' Hw. unfold bind. rewrite (Hst w' Hw).
    destruct rd; unfold ret in *; by inversion Hg.
Qed.

Lemma GetCredentialsPath_inv w r w1 :
  GetCredentialsPath w = (r, w1) →
  w1 = w ∧ ∀ w', HOME w' = HOME w → GetCredentialsPath w' = (r, w').
Proof.
  unfold GetCredentialsPath, bind at 1. intros Hg.
  destruct (GetConfigDir w) as [rd wd] eqn:Hd.
  destruct (GetConfigDir_inv _ _ _ Hd) as [-> Hst]. split.
  - destruct rd; unfold ret in Hg; by inversion Hg.
  - intros w' Hw. unfold bind. rewrite (Hst w' Hw).
    destruct rd; unfold ret in *; by inversion Hg.
Qed.

(** [LoadConfig], [GetOAuthConfig] and [LoadToken] only read. *)
Lemma LoadConfig_reads w r w1 : LoadConfig w = (r, w1) → w1 = w.
Proof.
  unfold LoadConfig, bind. intros Hl.
  destruct (GetConfigDir w) as [rd wd] eqn:Hd.
  destruct (GetConfigDir_inv _ _ _ Hd) as [-> _].
  destruct rd as [d|e]; [|by inversion Hl].
  destruct (os_ReadFile _ w) as [data|err].
  - destruct (json_Unmarshal_Config data); by inversion Hl.
  - destruct (os_IsNotExist err); by inversion Hl.
Qed.

Lemma GetOAuthConfig_reads w r w1 : GetOAuthConfig w = (r, w1) → w1 = w.
Proof.
  unfold GetOAuthConfig, bind. intros Hl.
  destruct (GetCredentialsPath w) as [rd wd] eqn:Hd.
  destruct (GetCredentialsPath_inv _ _ _ Hd) as [-> _].
  destruct rd as [d|e]; [|by inversion Hl].
  unfold_M. destruct (os_ReadFile d w) as [data|err]; [|by inversion Hl].
  destruct (google_ConfigFromJSON data oauthScopes); by inversion Hl.
Qed.

Lemma LoadToken_reads a w r w1 : LoadToken a w = (r, w1) → w1 = w.
Proof.
  unfold LoadToken, bind. intros Hl.
  destruct (GetTokenPath a w) as [rd wd] eqn:Hd.
  destruct (GetTokenPath_inv _ _ _ _ Hd) as [-> _].
  destruct rd as [d|e]; [|by inversion Hl].
  unfold_M. destruct (os_ReadFile d w) as [data|err]; [|by inversion Hl].
  destruct (json_Unmarshal_Token data); by inversion Hl.
Qed.

End Paths.

(** ** The file system calls *)

Lemma same_env_refl w : same_env w w.
Proof. done. Qed.

Lemma same_env_trans w1 w2 w3 :
  same_env w1 w2 → same_env w2 w3 → same_env w1 w3.
Proof. unfold same_env. intros (-> & -> & ->) (-> & -> & ->). done. Qed.

Lemma is_denied_env w w' p : same_env w w' → is_denied w' p = is_denied w p.
Proof. intros (_ & Hd & _). unfold is_denied. by rewrite Hd. Qed.

Lemma os_Mkdir_frame p perm w r w' :
  os_Mkdir p perm w = (r, w') → same_env w w' ∧ files w' = files w.
Proof.
  unfold os_Mkdir. intros Hm.
  repeat (case_match; simplify_eq); done.
Qed.

Lemma mkdir_chain_frame chain perm w r w' :
  mkdir_chain chain perm w = (r, w') → same_env w w' ∧ files w' = files w.
Proof.
  revert w r w'. induction chain as [|p parents IH]; intros w r w' Hm; simpl in Hm.
  - by inversion Hm.
  - destruct (negb (is_denied w p) && is_dir w p); [by inversion Hm|].
    destruct (negb (is_denied w p) && is_file w p); [by inversion Hm|].
    unfold bind in Hm.
    destruct (mkdir_chain parents perm w) as [[[]|e] w1] eqn:Hc.
    + destruct (IH _ _ _ Hc) as [He Hf].
      destruct (os_Mkdir_frame _ _ _ _ _ Hm) as [He' Hf'].
      split; [by eapply same_env_trans | congruence].
    + inversion Hm; subst. eauto.
Qed.

Lemma os_MkdirAll_frame p perm w r w' :
  os_MkdirAll p perm w = (r, w') → same_env w w' ∧ files w' = files w.
Proof. apply mkdir_chain_frame. Qed.

Lemma os_WriteFile_Ok p data perm w w' :
  os_WriteFile p data perm w = (Ok tt, w') →
  is_denied w p = false ∧
  ∃ m, w' = set_files (insert p {| mode := m; content := data |}) w.
Proof.
  unfold os_WriteFile. intros Hw.
  repeat (case_match; simplify_eq); eauto.
Qed.

Lemma os_WriteFile_Err p data perm w e w' :
  os_WriteFile p data perm w = (Err e, w') → w' = w.
Proof.
  unfold os_WriteFile. intros Hw.
  repeat (case_match; simplify_eq); eauto.
Qed.



(** ** The token store *)

Section TokenStore.
Context `{Platform}.

Lemma SaveToken_Ok a t w w' :
  SaveToken a t w = (Ok tt, w') →
  ∃ p data m,
    GetTokenPath a w = (Ok p, w) ∧ json_MarshalIndent_Token t = Ok data ∧
    same_env w w' ∧ is_denied w p = false ∧
    files w' = <[p := {| mode := m; content := data |}]> (files w).
Proof.
  unfold SaveToken. intros Hs.
  apply bind_Ok in Hs as (p & w1 & Hp & Hs).
  destruct (GetTokenPath_inv _ _ _ _ Hp) as [-> _].
  apply bind_Ok in Hs as (data & w1 & Hd & Hs).
  apply wrap_Ok, pure_inv in Hd as [Hd ->].
  apply bind_Ok in Hs as ([] & w1 & Hm & Hs).
  apply wrap_Ok in Hm. apply os_MkdirAll_frame in Hm as [He Hf].
  apply wrap_Ok, os_WriteFile_Ok in Hs as [Hden [m ->]].
  exists p, data, m. repeat split; try done.
  - apply He.
  - apply He.
  - apply He.
  - by rewrite <- (is_denied_env _ _ _ He).
  - simpl. by rewrite Hf.
Qed.

Lemma SaveToken_frame a t w r w' :
  SaveToken a t w = (r, w') → same_env w w'.
Proof.
  unfold SaveToken, bind. intros Hs.
  destruct (GetTokenPath a w) as [[p|e] w1] eqn:Hp;
    destruct (GetTokenPath_inv _ _ _ _ Hp) as [-> _]; [|by inversion Hs].
  unfold wrap at 1, pure in Hs.
  destruct (json_MarshalIndent_Token t) as [data|e]; [|by inversion Hs].
  unfold wrap at 1 in Hs.
  destruct (os_MkdirAll (filepath_Dir p) 448 w) as [[[]|e] w1] eqn:Hm;
    apply os_MkdirAll_frame in Hm as [He Hf]; [|by inversion Hs; subst].
  unfold wrap in Hs.
  destruct (os_WriteFile p data 384 w1) as [[[]|e] w2] eqn:Hw.
  - apply os_WriteFile_Ok in Hw as [_ [m ->]]. by inversion Hs; subst.
  - apply os_WriteFile_Err in Hw as ->. by inversion Hs; subst.
Qed.



End TokenStore.

(** ** The session *)

Lemma run_app s evs evs' : run s (evs ++ evs') = run (run s evs) evs'.
Proof. apply fold_left_app. Qed.

Lemma session_inv_init busy : session_inv (session_init busy).
Proof. unfold session_inv. simpl. naive_solver. Qed.

Lemma session_inv_step s e : session_inv s → session_inv (step s e).
Proof.
  destruct s as [cc ec cq eq sv pb rd co rs].
  unfold session_inv. simpl. intros (I1 & I2 & I3 & I4).
  destruct e; simpl;
    unfold handle_callback, coordinator, send_code, send_err,
      recv_code, recv_err; simpl;
    repeat (case_match; simplify_eq; simpl in * );
    repeat split; intros; simplify_eq; try done; try (by destruct I2);
    try (by rewrite ?I3, ?I4); try (by eapply I1);
    by specialize (I1 _ eq_refl).
Qed.

Lemma session_inv_run s evs : session_inv s → session_inv (run s evs).
Proof.
  revert s. induction evs as [|e evs IH]; intros s Hs; [done|].
  simpl. apply IH. by apply session_inv_step.
Qed.

Lemma closing_finishes s : ∃ sig, coord (run s closing) = Finished sig.
Proof.
  destruct s as [cc ec cq eq sv pb rd co rs].
  unfold run, closing; simpl. unfold coordinator; simpl.
  destruct co; simpl; eauto.
  destruct cc as [v|], ec as [e|]; simpl; eauto.
Qed.

Lemma session_closes busy evs :
  server (run (session_init busy) (evs ++ closing)) = Closed.
Proof.
  destruct (closing_finishes (run (session_init busy) evs)) as [sig Hsig].
  rewrite run_app.
  pose proof (session_inv_run _ closing
    (session_inv_run _ evs (session_inv_init busy))) as (I1 & _).
  by apply (I1 sig).
Qed.

Lemma still_waiting_timeout s :
  still_waiting s → outcome (run s closing) = SigTimeout.
Proof.
  destruct s as [cc ec cq eq sv pb rd co rs].
  unfold still_waiting, outcome, run, closing; simpl.
  destruct co; simpl; try done.
  intros [-> ->]. done.
Qed.

Lemma set_port_same w : set_port (port8089 w) w = w.
Proof. by destruct w. Qed.

Lemma session_eq evs w :
  session evs w =
  (Ok (outcome (run (session_init (port8089 w)) (evs ++ closing))), w).
Proof.
  unfold session, is_listening. rewrite session_closes.
  by rewrite orb_false_r, set_port_same.
Qed.

Lemma heading_for_timeout_step s e :
  heading_for_timeout s → quiet e = true → heading_for_timeout (step s e).
Proof.
  destruct s as [cc ec cq eq sv pb rd co rs].
  unfold heading_for_timeout. simpl. intros (-> & -> & -> & Hco) Hq.
  destruct e; simpl in *; try done;
    unfold coordinator; simpl;
    repeat (case_match; simplify_eq; simpl in * ); done.
Qed.

Lemma heading_for_timeout_run s evs :
  heading_for_timeout s → forallb quiet evs = true →
  heading_for_timeout (run s evs).
Proof.
  revert s. induction evs as [|e evs IH]; intros s Hs Hq; [done|].
  simpl in *. apply andb_prop in Hq as [Hq Hqs].
  apply IH; [|done]. by apply heading_for_timeout_step.
Qed.

Lemma heading_for_timeout_outcome s :
  heading_for_timeout s → outcome (run s closing) = SigTimeout.
Proof.
  destruct s as [cc ec cq eq sv pb rd co rs].
  unfold heading_for_timeout, outcome, run, closing. simpl.
  intros (-> & -> & -> & Hco). destruct co; simpl; done.
Qed.

(** ** The flow *)

Section FlowFacts.
Context `{Platform}.

(** [PerformOAuthFlow], path by path. *)
Lemma PerformOAuthFlow_paths name evs w :
  PerformOAuthFlow name evs w =
  match GetOAuthConfig w with
  | (Err e, _) => (Err e, w)
  | (Ok c, _) =>
      let c' := with_RedirectURL "http://localhost:8089/callback" c in
      match outcome (run (session_init (port8089 w)) (evs ++ closing)) with
      | SigErr err => (Err err, w)
      | SigTimeout => (Err (errors_New "timeout waiting for authorization"), w)
      | SigCode _ code =>
          match oauth2_Exchange c' code with
          | Err e => (Err (fmt_Wrap "failed to exchange code for token" e), w)
          | Ok token =>
              match SaveToken name token w with
              | (Err e, w') => (Err e, w')
              | (Ok _, w') =>
                  match calendar_NewService c' token with
                  | Err e =>
                      (Err (fmt_Wrap "failed to create calendar service" e), w')
                  | Ok _ =>
                      match CalendarList_Get_primary c' token with
                      | Err e =>
                          (Err (fmt_Wrap "failed to get primary calendar" e), w')
                      | Ok calId => (Ok calId, w')
                      end
                  end
              end
          end
      end
  end.
Proof.
  unfold PerformOAuthFlow, bind at 1.
  destruct (GetOAuthConfig w) as [[c|e] w1] eqn:Hc;
    apply GetOAuthConfig_reads in Hc as ->; [|done].
  unfold bind at 1. rewrite session_eq. simpl.
  destruct (outcome _) as [src code|err|]; try done.
  unfold bind at 1, wrap at 1, pure at 1.
  destruct (oauth2_Exchange _ code) as [token|e]; [|done].
  unfold bind at 1.
  destruct (SaveToken name token w) as [[[]|e] w']; [|done].
  unfold bind, wrap, pure, ret.
  destruct (calendar_NewService _ token) as [[]|e]; [|done].
  destruct (CalendarList_Get_primary _ token) as [calId|e]; done.
Qed.

(** C5. Whatever path [PerformOAuthFlow] takes, the server of its session
    is closed and the callback port is as free on return as it was before
    the call.  When no code and no error has reached the coordinator by
    the time the timer fires, the flow returns the timeout error; this is
    so in particular when the port is free and the session sees no callback
    request, no server failure and no manual line with a code in it. *)
Theorem PerformOAuthFlow_timeout_and_port name evs w :
  port8089 (snd (PerformOAuthFlow name evs w)) = port8089 w
  ∧ server (run (session_init (port8089 w)) (evs ++ closing)) = Closed
  ∧ (∀ c, GetOAuthConfig w = (Ok c, w) →
          still_waiting (run (session_init (port8089 w)) evs) →
          PerformOAuthFlow name evs w =
          (Err (errors_New "timeout waiting for authorization"), w))
  ∧ (∀ c, GetOAuthConfig w = (Ok c, w) →
          port8089 w = false → forallb quiet evs = true →
          PerformOAuthFlow name evs w =
          (Err (errors_New "timeout waiting for authorization"), w)).
Proof.
  split; [|split; [|split]].
  - rewrite PerformOAuthFlow_paths.
    destruct (GetOAuthConfig w) as [[c|e] w1]; [|done]. simpl.
    destruct (outcome _) as [src code|err|]; try done.
    destruct (oauth2_Exchange _ code) as [token|e]; [|done].
    destruct (SaveToken name token w) as [[[]|e] w'] eqn:Hs;
      apply SaveToken_frame in Hs as (_ & _ & Hport);
      repeat case_match; done.
  - apply session_closes.
  - intros c Hc Hwait. rewrite PerformOAuthFlow_paths, Hc. simpl.
    by rewrite run_app, still_waiting_timeout.
  - intros c Hc Hport Hq. rewrite PerformOAuthFlow_paths, Hc. simpl.
    rewrite run_app, heading_for_timeout_outcome; [done|].
    apply heading_for_timeout_run; [|done]. by rewrite Hport.
Qed.

(** C4. Unless the code-for-token exchange has succeeded,
    [PerformOAuthFlow] returns an error and leaves the world, its token
    files included, as it was; when the exchange fails the error is the
    exchange error. *)
Theorem PerformOAuthFlow_no_token_before_exchange name evs w :
  (∀ tok, flow_exchange evs w ≠ Some (Ok tok)) →
  snd (PerformOAuthFlow name evs w) = w
  ∧ (∃ e, fst (PerformOAuthFlow name evs w) = Err e)
  ∧ (∀ e, flow_exchange evs w = Some (Err e) →
          fst (PerformOAuthFlow name evs w) =
          Err (fmt_Wrap "failed to exchange code for token" e)).
Proof.
  unfold flow_exchange. rewrite PerformOAuthFlow_paths.
  destruct (GetOAuthConfig w) as [[c|e] w1]; simpl.
  - destruct (outcome _) as [src code|err|]; simpl.
    + destruct (oauth2_Exchange _ code) as [token|e]; simpl.
      * intros Hno. by destruct (Hno token).
      * intros _. split; [done|]. split; [eauto|]. by intros e' [= ->].
    + intros _. split; [done|]. split; [eauto|]. done.
    + intros _. split; [done|]. split; [eauto|]. done.
  - intros _. split; [done|]. split; [eauto|]. done.
Qed.

(** C8. When the token has been saved and the identity lookup then fails,
    [PerformOAuthFlow] returns an error and the world it leaves is the one
    the save produced: the account's token file is there, with the token as
    [encoding/json] wrote it. *)
Theorem PerformOAuthFlow_identity_failure_keeps_token name evs w tok w' :
  flow_exchange evs w = Some (Ok tok) →
  SaveToken name tok w = (Ok tt, w') →
  (∀ c, GetOAuthConfig w = (Ok c, w) →
        let c' := with_RedirectURL "http://localhost:8089/callback" c in
        (∃ e, calendar_NewService c' tok = Err e)
        ∨ (∃ e, CalendarList_Get_primary c' tok = Err e)) →
  (∃ e, PerformOAuthFlow name evs w = (Err e, w'))
  ∧ ∃ p data f,
      GetTokenPath name w' = (Ok p, w')
      ∧ json_MarshalIndent_Token tok = Ok data
      ∧ files w' !! p = Some f ∧ content f = data.
Proof.
  unfold flow_exchange. rewrite PerformOAuthFlow_paths.
  intros Hx Hs Hid.
  destruct (GetOAuthConfig w) as [[c|e] w1] eqn:Hc; [|done].
  apply GetOAuthConfig_reads in Hc as Hw1; subst w1.
  specialize (Hid c eq_refl). simpl in *.
  destruct (outcome _) as [src code|err|]; try done.
  injection Hx as Hx. rewrite Hx, Hs. split.
  - destruct Hid as [[e He]|[e He]]; rewrite He; [eauto|].
    destruct (calendar_NewService _ tok) as [[]|e']; eauto.
  - apply SaveToken_Ok in Hs as (p & data & m & Hp & Hd & He & Hden & Hf).
    destruct (GetTokenPath_inv _ _ _ _ Hp) as [_ Hst].
    exists p, data, {| mode := m; content := data |}.
    split; [apply Hst, He|]. split; [done|]. split; [|done].
    rewrite Hf. apply lookup_insert_eq.
Qed.

End FlowFacts.

(** ** The accounts *)

Section AccountFacts.
Context `{Platform}.






(** C9. For an account that the configuration lists, [AddAccount] returns
    the error that the account already exists, whatever the session and the
    provider would do, and leaves the world as it was: no port bound, no
    configuration or token file touched. *)
Theorem AddAccount_existing_rejected name evs w :
  listed w name →
  AddAccount name evs w =
  (Err (errors_New ("account '" ++ name ++ "' already exists")), w).
Proof.
  intros (cfg & Hl & [ac Hac]).
  unfold AddAccount, bind. by rewrite Hl, Hac.
Qed.

(** C1, as amended. For an account that the configuration does not list,
    [RemoveAccount] returns the error that the account is not found and
    changes nothing.  For a listed account with nothing at its token path
    the removal goes on: it returns what saving the configuration without
    the account returns. *)
Theorem RemoveAccount_unlisted_and_absent name w cfg :
  LoadConfig w = (Ok cfg, w) →
  (Accounts cfg !! name = None →
   RemoveAccount name w =
   (Err (errors_New ("account '" ++ name ++ "' not found")), w))
  ∧ (is_Some (Accounts cfg !! name) →
     ∀ p, GetTokenPath name w = (Ok p, w) →
          files w !! p = None → dirs w !! p = None →
          RemoveAccount name w =
          SaveConfig {| Accounts := delete name (Accounts cfg) |} w).
Proof.
  intros Hl. split.
  - intros Hn. unfold RemoveAccount, bind. by rewrite Hl, Hn.
  - intros [ac Hac] p Hp Hf Hd.
    unfold RemoveAccount, bind at 1. rewrite Hl, Hac.
    unfold bind at 1. rewrite Hp.
    unfold bind at 1, ignore, os_Remove, is_file.
    rewrite Hf, Hd. simpl.
    by destruct (is_denied w p).
Qed.


End AccountFacts.

(** ** The channels and the manual reader *)

Lemma manual_count_step s e :
  manual_count (step s e) = manual_count s + manual_sent s e.
Proof.
  destruct s as [cc ec cq eq sv pb rd co rs].
  destruct e; unfold manual_count, manual_sent; simpl;
    unfold handle_callback, coordinator, send_code, send_err,
      recv_code, recv_err; simpl;
    repeat (case_match; simplify_eq; simpl in * );
    rewrite ?map_app, ?list_sum_app; simpl;
    unfold manual_in in *; repeat (case_match; simplify_eq); lia.
Qed.

Lemma readerDone_step s e :
  readerDone s = true → readerDone (step s e) = true.
Proof.
  destruct s as [cc ec cq eq sv pb rd co rs]. simpl. intros ->.
  destruct e; simpl;
    unfold handle_callback, coordinator, send_code, send_err,
      recv_code, recv_err; simpl;
    repeat (case_match; simplify_eq; simpl in * ); done.
Qed.

Lemma readerDone_stdin s r : readerDone (step s (EvStdin r)) = true.
Proof.
  destruct s as [cc ec cq eq sv pb rd co rs]. simpl.
  unfold send_code; simpl.
  repeat (case_match; simplify_eq; simpl in * ); done.
Qed.

(** Before the reader has read, no manual code is around; afterwards at
    most one is. *)
Lemma manual_count_run busy evs :
  let s := run (session_init busy) evs in
  (manual_count s ≤ 1)%nat ∧ (readerDone s = false → manual_count s = 0).
Proof.
  induction evs as [|e evs IH] using rev_ind; [simpl; split; [|done]; cbv; lia|].
  rewrite run_app. simpl in *.
  set (s := run (session_init busy) evs) in *. destruct IH as [IH1 IH2].
  rewrite manual_count_step.
  destruct (readerDone s) eqn:Hrd.
  - rewrite readerDone_step by done.
    split; [|done]. unfold manual_sent. destruct e; rewrite ?Hrd; lia.
  - rewrite IH2 by done. unfold manual_sent. split.
    + destruct e; rewrite ?Hrd; repeat case_match; lia.
    + destruct e; try done. rewrite readerDone_stdin. done.
Qed.

(** Once the reader is done and has sent nothing, no manual code ever
    appears. *)
Lemma manual_count_silent s evs :
  readerDone s = true → manual_count s = 0 → manual_count (run s evs) = 0.
Proof.
  revert s. induction evs as [|e evs IH]; intros s Hrd Hc; [done|].
  simpl. apply IH; [by apply readerDone_step|].
  rewrite manual_count_step, Hc. unfold manual_sent.
  destruct e; rewrite ?Hrd; done.
Qed.

Lemma manual_count_outcome s code :
  manual_count s = 0 → outcome s ≠ SigCode FromManual code.
Proof.
  unfold manual_count, outcome. intros Hc Ho.
  destruct (coord s) as [| |sig|sig]; try done; subst sig; lia.
Qed.

(** C10. The manual reader sends a code exactly when it has read a whole
    line that is not empty once trimmed, and the code is the trimmed line;
    at most one manual code exists in a session; after its one read the
    reader is done and further input changes nothing; an empty line or a
    read error only marks the reader as done, and from then on the session
    never ends with a manual code: only the listener or the timer can end
    it. *)
Theorem manual_reader_single_shot :
  (∀ r c, manual_code r = Some c ↔
          ∃ line, r = ReadLine line ∧ c = strings_TrimSpace line ∧ c ≠ "")
  ∧ (∀ busy evs, (manual_count (run (session_init busy) evs) ≤ 1)%nat)
  ∧ (∀ s r, readerDone (step s (EvStdin r)) = true)
  ∧ (∀ s r, readerDone s = true → step s (EvStdin r) = s)
  ∧ (∀ s r, readerDone s = false → manual_code r = None →
            step s (EvStdin r) = set_readerDone s)
  ∧ (∀ busy evs r evs' code,
       readerDone (run (session_init busy) evs) = false →
       manual_code r = None →
       outcome (run (step (run (session_init busy) evs) (EvStdin r)) evs')
       ≠ SigCode FromManual code).
Proof.
  split; [|split; [|split; [|split; [|split]]]].
  - intros r c. unfold manual_code. split.
    + destruct r as [line|partial e]; [|done].
      destruct (decide (strings_TrimSpace line = "")); [done|].
      intros [= <-]. eauto.
    + intros (line & -> & -> & Hne).
      by destruct (decide (strings_TrimSpace line = "")).
  - intros busy evs. apply manual_count_run.
  - apply readerDone_stdin.
  - intros s r Hrd. simpl. by rewrite Hrd.
  - intros s r Hrd Hm. simpl. by rewrite Hrd, Hm.
  - intros busy evs r evs' code Hrd Hm.
    apply manual_count_outcome, manual_count_silent.
    + apply readerDone_stdin.
    + rewrite manual_count_step.
      destruct (manual_count_run busy evs) as [_ H0]. simpl in H0.
      rewrite H0 by done. unfold manual_sent. by rewrite Hrd, Hm.
Qed.





(** ** The program on the sample worlds *)


(** C1, counterexample: [ghost] was never configured and has no token
    file, and [RemoveAccount] returns an error. *)
Lemma RemoveAccount_ghost_fails :
  ¬ @listed (testPlatform true true) world0 "ghost"
  ∧ ¬ token_file_exists world0 "ghost"
  ∧ @RemoveAccount (testPlatform true true) "ghost" world0 =
    (Err (errors_New "account 'ghost' not found"), world0).
Proof.
  split; [|split].
  - intros (cfg & Hl & [ac Hac]). vm_compute in Hl.
    injection Hl as <-. vm_compute in Hac. discriminate.
  - intros (p & Hp & [f Hf]). vm_compute in Hp.
    injection Hp as <-. vm_compute in Hf. discriminate.
  - vm_compute. reflexivity.
Qed.

Lemma RemoveAccount_unlisted_and_absent_witness :
  @RemoveAccount (testPlatform true true) "ghost" world0 =
  (Err (errors_New "account 'ghost' not found"), world0)
  ∧ @RemoveAccount (testPlatform true true) "work" world2 =
    @SaveConfig (testPlatform true true)
      {| Accounts := delete "work" (Accounts cfg_work) |} world2.
Proof.
  split.
  - apply (@RemoveAccount_unlisted_and_absent (testPlatform true true)
             "ghost" world0 {| Accounts := ∅ |}).
    + vm_compute. reflexivity.
    + vm_compute. reflexivity.
  - apply (@RemoveAccount_unlisted_and_absent (testPlatform true true)
             "work" world2 cfg_work)
      with (p := configDir0 ++ "/tokens/work.json").
    + vm_compute. reflexivity.
    + exists work_entry. vm_compute. reflexivity.
    + vm_compute. reflexivity.
    + vm_compute. reflexivity.
    + vm_compute. reflexivity.
Defined.





Lemma PerformOAuthFlow_no_token_before_exchange_witness :
  snd (@PerformOAuthFlow (testPlatform false true) "work" callback_run world0)
  = world0
  ∧ fst (@PerformOAuthFlow (testPlatform false true) "work" callback_run
           world0) =
    Err (fmt_Wrap "failed to exchange code for token"
           (errors_New "oauth2: cannot fetch token")).
Proof.
  destruct (@PerformOAuthFlow_no_token_before_exchange
              (testPlatform false true) "work" callback_run world0)
    as (Hw & _ & He).
  - intros tok. vm_compute. discriminate.
  - split; [exact Hw|]. apply He. vm_compute. reflexivity.
Defined.

Lemma PerformOAuthFlow_timeout_and_port_witness :
  @PerformOAuthFlow (testPlatform true true) "work"
    [EvListen; EvCoordinator true; EvStdin (ReadLine ("  " ++ newline))]
    world0 =
  (Err (errors_New "timeout waiting for authorization"), world0)
  ∧ @PerformOAuthFlow (testPlatform true true) "work"
      [EvListen; EvStdin (ReadErr "abc" (errors_New "EOF")); EvTimer] world0 =
    (Err (errors_New "timeout waiting for authorization"), world0).
Proof.
  split.
  - destruct (@PerformOAuthFlow_timeout_and_port (testPlatform true true)
                "work"
                [EvListen; EvCoordinator true;
                 EvStdin (ReadLine ("  " ++ newline))] world0)
      as (_ & _ & Ht & _).
    eapply Ht.
    + vm_compute. reflexivity.
    + vm_compute. exact I.
  - destruct (@PerformOAuthFlow_timeout_and_port (testPlatform true true)
                "work"
                [EvListen; EvStdin (ReadErr "abc" (errors_New "EOF")); EvTimer]
                world0)
      as (_ & _ & _ & Ht).
    eapply Ht.
    + vm_compute. reflexivity.
    + reflexivity.
    + vm_compute. reflexivity.
Defined.



Lemma PerformOAuthFlow_identity_failure_keeps_token_witness :
  (∃ e, @PerformOAuthFlow (testPlatform true false) "work" callback_run world0
        = (Err e, snd (@SaveToken (testPlatform true false) "work" tok0 world0)))
  ∧ ∃ p data f,
      GetTokenPath "work"
        (snd (@SaveToken (testPlatform true false) "work" tok0 world0)) =
      (Ok p, snd (@SaveToken (testPlatform true false) "work" tok0 world0))
      ∧ @json_MarshalIndent_Token (testPlatform true false) tok0 = Ok data
      ∧ files (snd (@SaveToken (testPlatform true false) "work" tok0 world0))
          !! p = Some f
      ∧ content f = data.
Proof.
  apply (@PerformOAuthFlow_identity_failure_keeps_token
           (testPlatform true false) "work" callback_run world0 tok0).
  - vm_compute. reflexivity.
  - vm_compute. reflexivity.
  - intros c Hc. right. exists (errors_New "googleapi: Error 403").
    reflexivity.
Defined.

Lemma AddAccount_existing_rejected_witness :
  @AddAccount (testPlatform true true) "work" callback_run world1 =
  (Err (errors_New "account 'work' already exists"), world1).
Proof.
  apply (@AddAccount_existing_rejected (testPlatform true true) "work"
           callback_run world1).
  exists cfg_work. split.
  - vm_compute. reflexivity.
  - exists work_entry. vm_compute. reflexivity.
Defined.

Lemma manual_reader_single_shot_witness :
  manual_code (ReadLine ("  abc123 " ++ newline)) = Some "abc123"
  ∧ ∀ code,
      outcome
        (run (step (run (session_init false) [EvListen])
                (EvStdin (ReadLine ("  " ++ newline))))
           (EvStdin (ReadLine ("abc123" ++ newline)) :: closing))
      ≠ SigCode FromManual code.
Proof.
  destruct manual_reader_single_shot as (Hcode & _ & _ & _ & _ & Hsilent).
  split.
  - apply Hcode. exists ("  abc123 " ++ newline).
    split; [reflexivity|]. split; [vm_compute; reflexivity|discriminate].
  - intros code. apply Hsilent.
    + vm_compute. reflexivity.
    + vm_compute. reflexivity.
Defined.

(** ** More on paths and directories *)

Lemma components_nonempty s : components s ≠ [].
Proof.
  destruct s as [|c s]; simpl; [done|].
  destruct (Ascii.eqb c "/"); [done|]. by destruct (components s).
Qed.

Lemma concat_components s : String.concat "/" (components s) = s.
Proof.
  induction s as [|c s IH]; [done|]. simpl.
  destruct (Ascii.eqb c "/") eqn:Hc.
  - apply Ascii.eqb_eq in Hc as ->.
    pose proof (components_nonempty s) as Hne.
    destruct (components s) as [|h t]; [done|]. simpl in *. by rewrite IH.
  - pose proof (components_nonempty s) as Hne.
    destruct (components s) as [|h t]; [done|].
    destruct t as [|h' t]; simpl in *; by rewrite <- IH.
Qed.

Lemma filepath_Clean_nonempty s : filepath_Clean s ≠ "".
Proof.
  unfold filepath_Clean.
  destruct (decide (s = "")); [done|].
  destruct (is_rooted s); [done|].
  by destruct (decide (_ = "")).
Qed.

Lemma GetConfigDir_nonempty w d : GetConfigDir w = (Ok d, w) → d ≠ "".
Proof.
  unfold GetConfigDir, os_UserHomeDir. unfold_M.
  destruct (decide (HOME w = "")) as [|Hne]; [done|].
  intros [= <-]. unfold filepath_Join. simpl.
  destruct (decide (HOME w = "")); [done|]. apply filepath_Clean_nonempty.
Qed.

Lemma path_chain_head p : p ≠ "" → ∃ rest, path_chain p = p :: rest.
Proof.
  intros Hp. unfold path_chain.
  pose proof (components_nonempty p) as Hne.
  pose proof (concat_components p) as Hcat.
  destruct (components p) as [|c cs] eqn:Hcs; [done|].
  change (length (c :: cs)) with (S (length cs)).
  rewrite seq_S, rev_app_distr. cbn [rev app map Nat.add].
  change (S (length cs)) with (length (c :: cs)).
  rewrite firstn_all, Hcat.
  rewrite filter_cons_True by done. eauto.
Qed.

Lemma os_Mkdir_dirs p perm w r w' :
  os_Mkdir p perm w = (r, w') →
  (∀ q m, dirs w !! q = Some m → dirs w' !! q = Some m)
  ∧ (∀ q m, dirs w' !! q = Some m → dirs w !! q = Some m ∨ m = perm)
  ∧ (r = Ok tt → is_dir w' p = true).
Proof.
  unfold os_Mkdir. intros Hm.
  destruct (is_denied w p);
    [inversion Hm; subst; split; [done|]; split; [eauto|done]|].
  destruct (is_file w p || is_dir w p) eqn:Hex;
    [inversion Hm; subst; split; [done|]; split; [eauto|done]|].
  destruct (negb (is_dir w (filepath_Dir p)));
    [inversion Hm; subst; split; [done|]; split; [eauto|done]|].
  inversion Hm; subst; simpl. clear Hm.
  apply orb_false_elim in Hex as [_ Hd].
  assert (dirs w !! p = None) as Hnone.
  { unfold is_dir in Hd. apply orb_false_elim in Hd as [_ Hd].
    apply bool_decide_eq_false in Hd. by apply eq_None_not_Some. }
  split; [|split].
  - intros q m Hq. rewrite lookup_insert_ne; [done|]. congruence.
  - intros q m. rewrite lookup_insert. case_decide; [|eauto].
    intros [= <-]. eauto.
  - intros _. unfold is_dir. simpl. rewrite lookup_insert_eq.
    rewrite (bool_decide_eq_true_2 (is_Some (Some perm))) by eauto.
    apply orb_true_r.
Qed.

Lemma mkdir_chain_dirs chain perm w r w' :
  mkdir_chain chain perm w = (r, w') →
  (∀ q m, dirs w !! q = Some m → dirs w' !! q = Some m)
  ∧ (∀ q m, dirs w' !! q = Some m → dirs w !! q = Some m ∨ m = perm)
  ∧ (∀ p parents, chain = p :: parents → r = Ok tt → is_dir w' p = true).
Proof.
  revert w r w'. induction chain as [|p parents IH]; intros w r w' Hm;
    simpl in Hm.
  - inversion Hm; subst. split; [done|]. split; [eauto|done].
  - destruct (negb (is_denied w p) && is_dir w p) eqn:Hd.
    { inversion Hm; subst. split; [done|]. split; [eauto|].
      intros p' ps [= <- <-] _. by apply andb_prop in Hd as [_ Hd]. }
    destruct (negb (is_denied w p) && is_file w p); [|clear Hd].
    { inversion Hm; subst. split; [done|]. split; [eauto|]. done. }
    unfold bind in Hm.
    destruct (mkdir_chain parents perm w) as [[[]|e] w1] eqn:Hc.
    + destruct (IH _ _ _ Hc) as (Ha & Hb & _).
      destruct (os_Mkdir_dirs _ _ _ _ _ Hm) as (Ha' & Hb' & Hc').
      split; [eauto|]. split.
      * intros q m Hq. destruct (Hb' q m Hq) as [Hq'|]; eauto.
      * intros p' ps [= <- <-] Hr. by apply Hc'.
    + inversion Hm; subst. destruct (IH _ _ _ Hc) as (Ha & Hb & _).
      split; [done|]. split; [done|]. done.
Qed.

Lemma os_MkdirAll_dirs p perm w r w' :
  os_MkdirAll p perm w = (r, w') →
  (∀ q m, dirs w !! q = Some m → dirs w' !! q = Some m)
  ∧ (∀ q m, dirs w' !! q = Some m → dirs w !! q = Some m ∨ m = perm)
  ∧ (p ≠ "" → r = Ok tt → is_dir w' p = true).
Proof.
  unfold os_MkdirAll. intros Hm.
  destruct (mkdir_chain_dirs _ _ _ _ _ Hm) as (Ha & Hb & Hc).
  split; [done|]. split; [done|].
  intros Hp Hr. destruct (path_chain_head p Hp) as [rest Hrest]. eauto.
Qed.

Lemma is_dir_mono w w' q :
  (∀ q m, dirs w !! q = Some m → dirs w' !! q = Some m) →
  is_dir w q = true → is_dir w' q = true.
Proof.
  intros Hmono. unfold is_dir. intros Hd.
  apply orb_prop in Hd as [Hd|Hd]; [by rewrite Hd|].
  apply bool_decide_eq_true in Hd as [m Hm].
  rewrite (bool_decide_eq_true_2 (is_Some (dirs w' !! q))) by eauto.
  apply orb_true_r.
Qed.

Lemma os_WriteFile_Ok_mode p data perm w w' :
  os_WriteFile p data perm w = (Ok tt, w') →
  w' = set_files
         (insert p {| mode := match files w !! p with
                              | Some f => mode f
                              | None => perm
                              end;
                      content := data |}) w.
Proof.
  unfold os_WriteFile. intros Hw.
  repeat (case_match; simplify_eq); done.
Qed.

(** ** More on the configuration store *)

Section ConfigStore.
Context `{Platform}.

Lemma SaveConfig_steps cfg w w' :
  SaveConfig cfg w = (Ok tt, w') →
  ∃ d w1 w2 data,
    GetConfigDir w = (Ok d, w)
    ∧ os_MkdirAll d 448 w = (Ok tt, w1)
    ∧ os_MkdirAll (filepath_Join [d; "tokens"]) 448 w1 = (Ok tt, w2)
    ∧ json_MarshalIndent_Config cfg = Ok data
    ∧ os_WriteFile (filepath_Join [d; "config.json"]) data 384 w2 = (Ok tt, w').
Proof.
  unfold SaveConfig. intros Hs.
  apply bind_Ok in Hs as (d & w0 & Hd & Hs).
  destruct (GetConfigDir_inv _ _ _ Hd) as [-> _].
  apply bind_Ok in Hs as ([] & w1 & Hm1 & Hs). apply wrap_Ok in Hm1.
  apply bind_Ok in Hs as ([] & w2 & Hm2 & Hs). apply wrap_Ok in Hm2.
  apply bind_Ok in Hs as (data & w3 & Hj & Hs).
  apply wrap_Ok, pure_inv in Hj as [Hj ->]. apply wrap_Ok in Hs.
  exists d, w1, w2, data. done.
Qed.



(** After a successful [SaveConfig] the configuration directory and its
    [tokens] directory exist; every directory it had to create is for the
    owner only (0700), and a [config.json] it had to create is readable and
    writable by the owner only (0600), while an existing one keeps its
    mode. *)
Theorem SaveConfig_layout cfg w w' d :
  SaveConfig cfg w = (Ok tt, w') →
  GetConfigDir w = (Ok d, w) →
  is_dir w' d = true
  ∧ is_dir w' (filepath_Join [d; "tokens"]) = true
  ∧ (∀ q m, dirs w !! q = None → dirs w' !! q = Some m → m = 448%N)
  ∧ mode <$> files w' !! filepath_Join [d; "config.json"] =
    Some (match files w !! filepath_Join [d; "config.json"] with
          | Some f => mode f
          | None => 384%N
          end).
Proof.
  intros Hs Hd.
  apply SaveConfig_steps in Hs as (d' & w1 & w2 & data & Hd' & Hm1 & Hm2 & _ & Hw).
  rewrite Hd in Hd'. injection Hd' as <-.
  pose proof (GetConfigDir_nonempty _ _ Hd) as Hne.
  destruct (os_MkdirAll_dirs _ _ _ _ _ Hm1) as (Ha1 & Hb1 & Hc1).
  destruct (os_MkdirAll_dirs _ _ _ _ _ Hm2) as (Ha2 & Hb2 & Hc2).
  destruct (os_MkdirAll_frame _ _ _ _ _ Hm1) as [_ Hf1].
  destruct (os_MkdirAll_frame _ _ _ _ _ Hm2) as [_ Hf2].
  apply os_WriteFile_Ok_mode in Hw as ->. simpl.
  split; [|split; [|split]].
  - apply (is_dir_mono w1); [done|]. by apply Hc1.
  - apply Hc2; [|done]. unfold filepath_Join. simpl.
    destruct (decide (d = "")); [done|]. apply filepath_Clean_nonempty.
  - intros q m Hq Hq'.
    destruct (Hb2 q m Hq') as [Hq1|]; [|done].
    destruct (Hb1 q m Hq1) as [Hq0|]; [congruence|done].
  - rewrite lookup_insert_eq. simpl. by rewrite Hf2, Hf1.
Qed.

End ConfigStore.

(** ** More on the token store *)

Section TokenStoreMore.
Context `{Platform}.

Lemma SaveToken_steps a t w w' :
  SaveToken a t w = (Ok tt, w') →
  ∃ p data w1,
    GetTokenPath a w = (Ok p, w)
    ∧ json_MarshalIndent_Token t = Ok data
    ∧ os_MkdirAll (filepath_Dir p) 448 w = (Ok tt, w1)
    ∧ os_WriteFile p data 384 w1 = (Ok tt, w').
Proof.
  unfold SaveToken. intros Hs.
  apply bind_Ok in Hs as (p & w0 & Hp & Hs).
  destruct (GetTokenPath_inv _ _ _ _ Hp) as [-> _].
  apply bind_Ok in Hs as (data & w0 & Hd & Hs).
  apply wrap_Ok, pure_inv in Hd as [Hd ->].
  apply bind_Ok in Hs as ([] & w1 & Hm & Hs).
  apply wrap_Ok in Hm. apply wrap_Ok in Hs.
  exists p, data, w1. done.
Qed.

Lemma SaveToken_files a t w r w' p :
  SaveToken a t w = (r, w') → GetTokenPath a w = (Ok p, w) →
  (∀ q, q ≠ p → files w' !! q = files w !! q)
  ∧ (∀ e, r = Err e → files w' = files w).
Proof.
  unfold SaveToken, bind. intros Hs Hp. rewrite Hp in Hs.
  unfold wrap at 1, pure in Hs.
  destruct (json_MarshalIndent_Token t) as [data|e];
    [|inversion Hs; subst; split; intros; reflexivity].
  unfold wrap at 1 in Hs.
  destruct (os_MkdirAll (filepath_Dir p) 448 w) as [[[]|e] w1] eqn:Hm;
    apply os_MkdirAll_frame in Hm as [He Hf];
    [|inversion Hs; subst; split; intros; by rewrite Hf].
  unfold wrap in Hs.
  destruct (os_WriteFile p data 384 w1) as [[[]|e] w2] eqn:Hw.
  - apply os_WriteFile_Ok in Hw as [_ [m ->]]. inversion Hs; subst. simpl.
    split; [|done]. intros q Hq. rewrite Hf. by apply lookup_insert_ne.
  - apply os_WriteFile_Err in Hw as ->. inversion Hs; subst.
    split; intros; by rewrite Hf.
Qed.


(** After a successful [SaveToken] the directory of the token file exists;
    every directory it had to create is for the owner only (0700), and a
    token file it had to create is readable and writable by the owner only
    (0600), while an existing one keeps its mode. *)
Theorem SaveToken_layout a t w w' p :
  SaveToken a t w = (Ok tt, w') →
  GetTokenPath a w = (Ok p, w) →
  is_dir w' (filepath_Dir p) = true
  ∧ (∀ q m, dirs w !! q = None → dirs w' !! q = Some m → m = 448%N)
  ∧ mode <$> files w' !! p =
    Some (match files w !! p with Some f => mode f | None => 384%N end).
Proof.
  intros Hs Hp.
  apply SaveToken_steps in Hs as (p' & data & w1 & Hp' & _ & Hm & Hw).
  rewrite Hp in Hp'. injection Hp' as <-.
  destruct (os_MkdirAll_dirs _ _ _ _ _ Hm) as (Ha & Hb & Hc).
  destruct (os_MkdirAll_frame _ _ _ _ _ Hm) as [_ Hf].
  apply os_WriteFile_Ok_mode in Hw as ->. simpl.
  split; [|split].
  - apply Hc; [|done]. unfold filepath_Dir.
    destruct (removelast (components p)); apply filepath_Clean_nonempty.
  - intros q m Hq Hq'. destruct (Hb q m Hq') as [Hq0|Hq0]; [congruence|exact Hq0].
  - rewrite lookup_insert_eq. simpl. by rewrite Hf.
Qed.

(** Saving the token of one account does not change what [LoadToken]
    returns for another account that has a token file at another path. *)
Theorem SaveToken_other_account_unaffected a b t w r w' pa pb :
  SaveToken b t w = (r, w') →
  GetTokenPath a w = (Ok pa, w) → GetTokenPath b w = (Ok pb, w) →
  pa ≠ pb → is_Some (files w !! pa) →
  fst (LoadToken a w') = fst (LoadToken a w).
Proof.
  intros Hs Hpa Hpb Hne [f Hf].
  pose proof (SaveToken_frame _ _ _ _ _ Hs) as He.
  destruct (SaveToken_files _ _ _ _ _ _ Hs Hpb) as [Hfr _].
  destruct (GetTokenPath_inv _ _ _ _ Hpa) as [_ Hst].
  unfold LoadToken, bind, lift, os_ReadFile.
  rewrite (Hst w') by apply He. rewrite Hpa.
  rewrite (is_denied_env _ _ _ He), (Hfr pa Hne), Hf.
  destruct (is_denied w pa); [done|]. unfold wrap, pure.
  by destruct (json_Unmarshal_Token (content f)).
Qed.

End TokenStoreMore.

(** ** Token paths of plain account names *)

Lemma components_no_slash s : no_slash s = true → components s = [s].
Proof.
  unfold no_slash. induction s as [|c s IH]; [done|]. simpl.
  intros Hs. apply andb_prop in Hs as [Hc Hs].
  apply negb_true_iff in Hc. rewrite Hc, IH; done.
Qed.

Lemma components_app_slash x y :
  components (x ++ "/" ++ y) = (components x ++ components y)%list.
Proof.
  induction x as [|c x IH]; [done|]. simpl.
  destruct (Ascii.eqb c "/"); simpl in *; rewrite IH; [done|].
  pose proof (components_nonempty x) as Hne.
  by destruct (components x).
Qed.

Lemma components_concat xs :
  xs ≠ [] → Forall (λ x, no_slash x = true) xs →
  components (String.concat "/" xs) = xs.
Proof.
  induction xs as [|x xs IH]; [done|]. intros _ Hall.
  apply Forall_cons in Hall as [Hx Hall].
  destruct xs as [|y xs]; [by apply components_no_slash|].
  change (String.concat "/" (x :: y :: xs))
    with (x ++ "/" ++ String.concat "/" (y :: xs)).
  rewrite components_app_slash, components_no_slash, IH; done.
Qed.

Lemma components_all_no_slash s :
  Forall (λ x, no_slash x = true) (components s).
Proof.
  induction s as [|c s IH]; [by repeat constructor|]. simpl.
  destruct (Ascii.eqb c "/") eqn:Hc; [by constructor|].
  pose proof (components_nonempty s) as Hne.
  destruct (components s) as [|h t]; [done|].
  apply Forall_cons in IH as [Hh Ht]. constructor; [|done].
  unfold no_slash in *. simpl. by rewrite Hc.
Qed.

Lemma clean_step_no_slash rooted st c :
  Forall (λ x, no_slash x = true) st → no_slash c = true →
  Forall (λ x, no_slash x = true) (clean_step rooted st c).
Proof.
  intros Hst Hc. unfold clean_step.
  repeat case_decide; try done.
  - destruct st as [|top rest]; [destruct rooted; by repeat constructor|].
    case_decide; [by constructor|]. by apply Forall_cons in Hst as [_ ?].
  - by constructor.
Qed.

Lemma clean_fold_no_slash rooted cs st :
  Forall (λ x, no_slash x = true) st → Forall (λ x, no_slash x = true) cs →
  Forall (λ x, no_slash x = true) (fold_left (clean_step rooted) cs st).
Proof.
  revert st. induction cs as [|c cs IH]; intros st Hst Hcs; [done|].
  apply Forall_cons in Hcs as [Hc Hcs]. simpl.
  apply IH; [|done]. by apply clean_step_no_slash.
Qed.

Lemma clean_fold_kept rooted xs st :
  Forall kept xs →
  fold_left (clean_step rooted) xs st = (rev xs ++ st)%list.
Proof.
  revert st. induction xs as [|x xs IH]; intros st Hxs; [done|].
  apply Forall_cons in Hxs as [(_ & H1 & H2 & H3) Hxs]. simpl.
  rewrite IH by done. unfold clean_step.
  repeat (case_decide; [done|]). by rewrite <- app_assoc.
Qed.

Lemma string_app_inv_head (s x y : string) : s ++ x = s ++ y → x = y.
Proof. induction s as [|c s IH]; simpl; [done|]. intros [= ?]. auto. Qed.

Lemma string_app_length (x y : string) :
  String.length (x ++ y) = String.length x + String.length y.
Proof. induction x as [|c x IH]; simpl; [done|]. by rewrite IH. Qed.

Lemma string_app_inv_tail (x y s : string) : x ++ s = y ++ s → x = y.
Proof.
  revert y. induction x as [|c x IH]; intros [|d y]; simpl; try done.
  - intros Hs. apply (f_equal String.length) in Hs. simpl in Hs.
    rewrite !string_app_length in Hs. simpl in Hs. lia.
  - intros Hs. apply (f_equal String.length) in Hs. simpl in Hs.
    rewrite !string_app_length in Hs. simpl in Hs. lia.
  - intros [= -> Hs]. f_equal. by apply IH.
Qed.

Lemma is_rooted_app x y : x ≠ "" → is_rooted (x ++ y) = is_rooted x.
Proof. by destruct x. Qed.

(** [filepath.Join] of a directory and components that are kept: the
    cleaned directory followed by the components. *)
Lemma filepath_Join_kept d xs :
  d ≠ "" → xs ≠ [] → Forall kept xs →
  filepath_Join (d :: xs) =
  (if is_rooted d then "/" else "")
  ++ String.concat "/"
       (rev (fold_left (clean_step (is_rooted d)) (components d) []) ++ xs)%list.
Proof.
  intros Hd Hxs Hk. unfold filepath_Join. simpl.
  destruct (decide (d = "")); [done|].
  destruct xs as [|x xs]; [done|].
  change (String.concat "/" (d :: x :: xs))
    with (d ++ "/" ++ String.concat "/" (x :: xs)).
  unfold filepath_Clean.
  destruct (decide (d ++ "/" ++ String.concat "/" (x :: xs) = "")) as [He|_];
    [by destruct d|].
  rewrite is_rooted_app by done.
  rewrite components_app_slash, components_concat; [|done|].
  2: { eapply Forall_impl; [exact Hk|]. by intros ? [? _]. }
  rewrite fold_left_app, clean_fold_kept by done.
  rewrite rev_app_distr, rev_involutive.
  destruct (is_rooted d); [done|].
  case_decide as Hb; [|done]. exfalso.
  apply (f_equal components) in Hb.
  rewrite components_concat in Hb.
  - apply Forall_cons in Hk as [(_ & Hx & _) _].
    destruct (rev _) as [|h t]; simpl in Hb; [by injection Hb|].
    injection Hb as _ Hb. by destruct t.
  - by destruct (rev _).
  - apply Forall_app. split.
    + apply Forall_rev, clean_fold_no_slash; [done|].
      apply components_all_no_slash.
    + eapply Forall_impl; [exact Hk|]. by intros ? [? _].
Qed.

Lemma filepath_Join_kept_inj d xs ys :
  d ≠ "" → xs ≠ [] → ys ≠ [] → Forall kept xs → Forall kept ys →
  filepath_Join (d :: xs) = filepath_Join (d :: ys) → xs = ys.
Proof.
  intros Hd Hxs Hys Hkx Hky.
  rewrite !filepath_Join_kept by done.
  intros Heq. apply string_app_inv_head in Heq.
  apply (f_equal components) in Heq.
  assert (∀ zs, Forall kept zs →
            Forall (λ x, no_slash x = true)
              (rev (fold_left (clean_step (is_rooted d)) (components d) [])
               ++ zs)%list) as Hall.
  { intros zs Hz. apply Forall_app. split.
    - apply Forall_rev, clean_fold_no_slash; [done|].
      apply components_all_no_slash.
    - eapply Forall_impl; [exact Hz|]. by intros ? [? _]. }
  rewrite !components_concat in Heq; auto.
  - by apply app_inv_head in Heq.
  - destruct ys; [done|]. by destruct (rev _).
  - destruct xs; [done|]. by destruct (rev _).
Qed.

Lemma no_slash_app x y :
  no_slash x = true → no_slash y = true → no_slash (x ++ y) = true.
Proof.
  unfold no_slash. induction x as [|c x IH]; [done|]. simpl.
  intros Hx Hy. apply andb_prop in Hx as [-> Hx]. by apply IH.
Qed.

Lemma kept_json a : no_slash a = true → kept (a ++ ".json").
Proof.
  intros Ha. split; [by apply no_slash_app|].
  repeat split; intros Heq; apply (f_equal String.length) in Heq;
    rewrite string_app_length in Heq; simpl in Heq; lia.
Qed.

Lemma GetTokenPath_Ok a w p w' :
  GetTokenPath a w = (Ok p, w') →
  ∃ d, GetConfigDir w = (Ok d, w)
       ∧ p = filepath_Join [d; "tokens"; a ++ ".json"].
Proof.
  unfold GetTokenPath, bind. intros Hp.
  destruct (GetConfigDir w) as [[d|e] w1] eqn:Hd; [|done].
  destruct (GetConfigDir_inv _ _ _ Hd) as [-> _].
  unfold ret in Hp. injection Hp as <- _. eauto.
Qed.

(** Account names without a path separator have token files of their own:
    two such names with the same token path are the same name, and the
    token path is neither the configuration file nor the credentials
    file. *)
Theorem GetTokenPath_plain_names w a b pa d :
  no_slash a = true → no_slash b = true →
  GetTokenPath a w = (Ok pa, w) → GetConfigDir w = (Ok d, w) →
  (GetTokenPath b w = (Ok pa, w) → a = b)
  ∧ pa ≠ filepath_Join [d; "config.json"]
  ∧ pa ≠ filepath_Join [d; "credentials.json"].
Proof.
  intros Ha Hb Hpa Hd.
  apply GetTokenPath_Ok in Hpa as (d' & Hd' & ->).
  rewrite Hd in Hd'. injection Hd' as <-.
  pose proof (GetConfigDir_nonempty _ _ Hd) as Hne.
  assert (kept "tokens") as Hkt by (by repeat split).
  assert (kept "config.json") as Hkc by (by repeat split).
  assert (kept "credentials.json") as Hkr by (by repeat split).
  pose proof (kept_json a Ha) as Hka. pose proof (kept_json b Hb) as Hkb.
  assert (∀ x y, kept x → kept y → Forall kept [x; y]) as H2
    by (intros; by apply Forall_cons_2; [|apply Forall_cons_2]).
  assert (∀ x, kept x → Forall kept [x]) as H1
    by (intros; by apply Forall_cons_2).
  split; [|split].
  - intros Hpb. apply GetTokenPath_Ok in Hpb as (d' & Hd' & Heq).
    rewrite Hd in Hd'. injection Hd' as <-.
    apply filepath_Join_kept_inj in Heq; [|done|done|done|by apply H2..].
    injection Heq as Heq. symmetry. by apply string_app_inv_tail in Heq.
  - intros Heq.
    by apply filepath_Join_kept_inj in Heq;
      [|done|done|done|by apply H2|by apply H1].
  - intros Heq.
    by apply filepath_Join_kept_inj in Heq;
      [|done|done|done|by apply H2|by apply H1].
Qed.

(** ** More on the accounts *)

Section AccountsMore.
Context `{Platform}.





(** Without the credentials file [AddAccount] of a new account returns
    the error that names the place where the file is expected, whatever
    the session would bring, and leaves the world as it was. *)
Theorem AddAccount_without_credentials name evs w cfg d :
  LoadConfig w = (Ok cfg, w) → Accounts cfg !! name = None →
  GetConfigDir w = (Ok d, w) →
  is_denied w (filepath_Join [d; "credentials.json"]) = false →
  files w !! filepath_Join [d; "credentials.json"] = None →
  is_dir w (filepath_Join [d; "credentials.json"]) = false →
  AddAccount name evs w =
  (Err (errors_New
          ("credentials.json not found. Please place your Google OAuth credentials at: "
           ++ filepath_Join [d; "credentials.json"])), w).
Proof.
  intros Hl Hn Hd Hden Hf Hnd.
  unfold AddAccount, bind at 1. rewrite Hl, Hn.
  unfold bind at 1, GetCredentialsPath, bind at 1. rewrite Hd. unfold ret.
  unfold bind at 1, os_Stat, is_file. by rewrite Hden, Hf, Hnd, Hd.
Qed.


End AccountsMore.

(** ** More on the session and the flow *)

Lemma decided_step sig s e : decided sig s → decided sig (step s e).
Proof.
  destruct s as [cc ec cq eq sv pb rd co rs].
  unfold decided. simpl. intros [-> | ->];
    (destruct e; simpl;
     unfold handle_callback, coordinator, send_code, send_err; simpl;
     repeat (case_match; simplify_eq; simpl in * ); eauto).
Qed.

Lemma decided_run sig s evs : decided sig s → decided sig (run s evs).
Proof.
  revert s. induction evs as [|e evs IH]; intros s Hs; [done|].
  simpl. apply IH. by apply decided_step.
Qed.

Lemma decided_outcome sig s : decided sig s → outcome s = sig.
Proof. unfold decided, outcome. by intros [-> | ->]. Qed.

Lemma failing_with_step err s e :
  failing_with err s → quiet e = true → failing_with err (step s e).
Proof.
  intros [(Hc & He & Hcc)|Hd] Hq; [|right; by apply decided_step].
  destruct s as [cc ec cq eq sv pb rd co rs]. simpl in *. subst.
  unfold failing_with, decided.
  destruct e; simpl in *; try done;
    unfold coordinator, send_err, recv_err; simpl;
    repeat (case_match; simplify_eq; simpl in * ); eauto.
Qed.

Lemma failing_with_run err s evs :
  failing_with err s → forallb quiet evs = true →
  failing_with err (run s evs).
Proof.
  revert s. induction evs as [|e evs IH]; intros s Hs Hq; [done|].
  simpl in *. apply andb_prop in Hq as [Hq Hqs].
  apply IH; [|done]. by apply failing_with_step.
Qed.

Lemma failing_with_outcome err s :
  failing_with err s → outcome (run s closing) = SigErr err.
Proof.
  intros [(Hc & He & Hcc)|Hd].
  - destruct s as [cc ec cq eq sv pb rd co rs]. simpl in *. subst.
    unfold outcome, run, closing. simpl. unfold coordinator. simpl.
    unfold recv_err. simpl. by destruct eq.
  - apply decided_outcome. by apply decided_run.
Qed.

Section FlowMore.
Context `{Platform}.

(** Once the coordinator's [select] has fired, nothing that happens later
    changes what [PerformOAuthFlow] returns or does. *)
Theorem first_signal_wins name evs evs' w sig :
  decided sig (run (session_init (port8089 w)) evs) →
  PerformOAuthFlow name (evs ++ evs') w = PerformOAuthFlow name evs w.
Proof.
  intros Hd. rewrite !PerformOAuthFlow_paths.
  destruct (GetOAuthConfig w) as [[c|e] w1]; [|done]. simpl.
  rewrite <- !app_assoc, !run_app.
  rewrite (decided_outcome sig), (decided_outcome sig (run (run _ evs) _));
    [done|by apply decided_run|by do 2 apply decided_run].
Qed.

(** The code the flow exchanges is the first one that reaches the waiting
    coordinator: the code of a callback while the server listens, or the
    trimmed line of the manual reader, whatever arrives after it. *)
Theorem first_code_is_exchanged evs evs' w c :
  GetOAuthConfig w = (Ok c, w) →
  coord (run (session_init (port8089 w)) evs) = InSelect →
  (∀ code, server (run (session_init (port8089 w)) evs) = Listening →
     code ≠ "" →
     flow_exchange (evs ++ EvCallback code :: evs') w =
     Some (oauth2_Exchange
             (with_RedirectURL "http://localhost:8089/callback" c) code))
  ∧ (∀ r code, readerDone (run (session_init (port8089 w)) evs) = false →
       manual_code r = Some code →
       flow_exchange (evs ++ EvStdin r :: evs') w =
       Some (oauth2_Exchange
               (with_RedirectURL "http://localhost:8089/callback" c) code)).
Proof.
  intros Hc Hco. unfold flow_exchange. rewrite Hc.
  remember (run (session_init (port8089 w)) evs) as s eqn:Hs.
  split.
  - intros code Hsv Hne.
    rewrite <- app_assoc, run_app, <- Hs.
    rewrite (decided_outcome (SigCode FromCallback code)); [done|].
    change (run s ((EvCallback code :: evs') ++ closing))
      with (run (step s (EvCallback code)) (evs' ++ closing)).
    apply decided_run.
    left. simpl. rewrite Hsv. unfold handle_callback.
    destruct (decide (code = "")); [done|].
    unfold send_code. simpl. by rewrite Hco.
  - intros r code Hrd Hm.
    rewrite <- app_assoc, run_app, <- Hs.
    rewrite (decided_outcome (SigCode FromManual code)); [done|].
    change (run s ((EvStdin r :: evs') ++ closing))
      with (run (step s (EvStdin r)) (evs' ++ closing)).
    apply decided_run.
    left. simpl. rewrite Hrd, Hm. unfold send_code. simpl. by rewrite Hco.
Qed.

(** A callback without a code that reaches the waiting coordinator while
    the server listens is answered with status 400 and makes
    [PerformOAuthFlow] return the error of the handler, with the world as
    it was, whatever arrives after it. *)
Theorem callback_without_code_fails name evs evs' w c :
  GetOAuthConfig w = (Ok c, w) →
  coord (run (session_init (port8089 w)) evs) = InSelect →
  server (run (session_init (port8089 w)) evs) = Listening →
  PerformOAuthFlow name (evs ++ EvCallback "" :: evs') w =
  (Err (errors_New "no code in callback"), w)
  ∧ responses (step (run (session_init (port8089 w)) evs) (EvCallback "")) =
    (responses (run (session_init (port8089 w)) evs) ++ [400%N])%list.
Proof.
  intros Hc Hco Hsv. rewrite PerformOAuthFlow_paths, Hc. simpl.
  remember (run (session_init (port8089 w)) evs) as s eqn:Hs.
  assert (decided (SigErr (errors_New "no code in callback"))
            (step s (EvCallback ""))) as Hd.
  { left. simpl. rewrite Hsv. unfold handle_callback, send_err. simpl.
    by rewrite Hco. }
  split.
  - rewrite <- app_assoc, run_app, <- Hs.
    change (run s ((EvCallback "" :: evs') ++ closing))
      with (run (step s (EvCallback "")) (evs' ++ closing)).
    by rewrite (decided_outcome _ _ (decided_run _ _ _ Hd)).
  - simpl. rewrite Hsv. unfold handle_callback, send_err. simpl.
    by rewrite Hco.
Qed.

(** When the callback port is taken and the environment sends nothing
    else, [PerformOAuthFlow] returns the error of the server, with the
    world as it was. *)
Theorem busy_port_fails name evs w c :
  GetOAuthConfig w = (Ok c, w) →
  port8089 w = true → forallb quiet evs = true →
  PerformOAuthFlow name (EvListen :: evs) w =
  (Err (fmt_Wrap "server error" (OpError "listen" ":8089" EADDRINUSE)), w).
Proof.
  intros Hc Hport Hq. rewrite PerformOAuthFlow_paths, Hc.
  assert (outcome (run (session_init (port8089 w))
                     ((EvListen :: evs) ++ closing)) =
          SigErr (fmt_Wrap "server error"
                    (OpError "listen" ":8089" EADDRINUSE))) as ->; [|done].
  change (run (session_init (port8089 w)) ((EvListen :: evs) ++ closing))
    with (run (step (session_init (port8089 w)) EvListen) (evs ++ closing)).
  rewrite run_app. apply failing_with_outcome, failing_with_run; [|done].
  left. by rewrite Hport.
Qed.

(** A flow that succeeds has saved the token it got for the code that won
    and returns the identifier of the primary calendar read with that
    token: the token file holds the token as [encoding/json] wrote it. *)
Theorem PerformOAuthFlow_success name evs w email w' :
  PerformOAuthFlow name evs w = (Ok email, w') →
  ∃ c tok,
    GetOAuthConfig w = (Ok c, w)
    ∧ flow_exchange evs w = Some (Ok tok)
    ∧ SaveToken name tok w = (Ok tt, w')
    ∧ CalendarList_Get_primary
        (with_RedirectURL "http://localhost:8089/callback" c) tok = Ok email
    ∧ ∃ p data f,
        GetTokenPath name w' = (Ok p, w')
        ∧ json_MarshalIndent_Token tok = Ok data
        ∧ files w' !! p = Some f ∧ content f = data.
Proof.
  rewrite PerformOAuthFlow_paths. unfold flow_exchange. intros Hf.
  destruct (GetOAuthConfig w) as [[c|e] w1] eqn:Hc; [|done].
  apply GetOAuthConfig_reads in Hc as Hw1; subst w1. simpl in Hf.
  destruct (outcome _) as [src code|err|]; try done.
  destruct (oauth2_Exchange _ code) as [tok|e]; [|done].
  destruct (SaveToken name tok w) as [[[]|e] w2] eqn:Hs; [|done].
  destruct (calendar_NewService _ tok) as [[]|e]; [|done].
  destruct (CalendarList_Get_primary _ tok) as [calId|e] eqn:Hid; [|done].
  injection Hf as -> ->.
  exists c, tok. repeat (split; [done|]).
  apply SaveToken_Ok in Hs as (p & data & m & Hp & Hd & He & Hden & Hfl).
  destruct (GetTokenPath_inv _ _ _ _ Hp) as [_ Hst].
  exists p, data, {| mode := m; content := data |}.
  split; [apply Hst, He|]. split; [done|]. split; [|done].
  rewrite Hfl. apply lookup_insert_eq.
Qed.

End FlowMore.

(** Once the coordinator has finished, the server is closed: a callback
    that comes late is not handled and changes nothing in the session. *)
Theorem late_callback_ignored busy evs sig code :
  coord (run (session_init busy) evs) = Finished sig →
  step (run (session_init busy) evs) (EvCallback code) =
  run (session_init busy) evs.
Proof.
  intros Hco.
  pose proof (session_inv_run _ evs (session_inv_init busy)) as (I1 & _).
  simpl. by rewrite (I1 sig Hco).
Qed.

(** ** The helpers of the tests *)

Lemma substring_0_split n s t :
  substring 0 n s = t → String.length t = n → ∃ post, s = t ++ post.
Proof.
  revert s t. induction n as [|n IH]; intros s t.
  - destruct s; simpl; intros <- _; eauto.
  - destruct s as [|c s]; simpl; [by intros <-|].
    intros <- Hl. simpl in Hl. injection Hl as Hl.
    destruct (IH s _ eq_refl Hl) as [post Hp]. exists post.
    rewrite Hp at 1. reflexivity.
Qed.

Lemma substring_split i n s t :
  substring i n s = t → String.length t = n → ∃ pre post, s = pre ++ t ++ post.
Proof.
  revert s. induction i as [|i IH]; intros s Hs Hl.
  - destruct (substring_0_split _ _ _ Hs Hl) as [post ->]. by exists "", post.
  - destruct s as [|c s]; simpl in Hs.
    + subst t. by exists "", "".
    + destruct (IH s Hs Hl) as (pre & post & ->). by exists (String c pre), post.
Qed.

Lemma substring_0_app t post : substring 0 (String.length t) (t ++ post) = t.
Proof.
  induction t as [|c t IH].
  - change (substring 0 0 post = ""). by destruct post.
  - change (String c (substring 0 (String.length t) (t ++ post)) = String c t).
    by rewrite IH.
Qed.

Lemma substring_app pre t post :
  substring (String.length pre) (String.length t) (pre ++ t ++ post) = t.
Proof.
  induction pre as [|c pre IH]; [exact (substring_0_app t post)|exact IH].
Qed.

Lemma containsHelper_from_true n i s substr :
  containsHelper_from n i s substr = true ↔
  ∃ j, (i ≤ j < i + n)%nat ∧ substring j (String.length substr) s = substr.
Proof.
  revert i. induction n as [|n IH]; intros i; simpl.
  - split; [done|]. intros (j & Hj & _). lia.
  - destruct (String.eqb _ substr) eqn:He.
    + apply String.eqb_eq in He. split; [|done]. intros _. exists i.
      split; [lia|done].
    + apply String.eqb_neq in He. rewrite IH. split.
      * intros (j & Hj & Hs). exists j. split; [lia|done].
      * intros (j & Hj & Hs). exists j. split; [|done].
        destruct (decide (j = i)) as [->|]; [done|lia].
Qed.

(** [contains s substr], the helper of the tests, holds exactly when
    [substr] occurs in [s]; the empty string occurs in every string. *)
Theorem contains_spec s substr :
  contains s substr = true ↔ ∃ pre post, s = pre ++ substr ++ post.
Proof.
  unfold contains, containsHelper. split.
  - intros Hc. apply andb_prop in Hc as [_ Hc].
    apply orb_prop in Hc as [Hc|Hc].
    + apply String.eqb_eq in Hc as ->. exists "", "".
      change (substr = substr ++ "").
      induction substr as [|c t IH]; [done|].
      change (String c t = String c (t ++ "")). by rewrite <- IH.
    + apply andb_prop in Hc as [_ Hc].
      apply containsHelper_from_true in Hc as (j & _ & Hs).
      by apply (substring_split j (String.length substr)).
  - intros (pre & post & ->).
    rewrite !string_app_length.
    apply andb_true_intro. split; [apply Nat.leb_le; lia|].
    destruct (String.eqb _ substr) eqn:He; [done|]. simpl.
    apply String.eqb_neq in He.
    apply andb_true_intro. split.
    + apply Nat.ltb_lt.
      destruct pre as [|a pre]; [|simpl; lia].
      destruct substr as [|b substr]; [|simpl; lia].
      destruct post as [|c post]; [by destruct He|simpl; lia].
    + apply containsHelper_from_true. exists (String.length pre).
      split; [lia|]. apply substring_app.
Qed.

(** ** The calendar tools *)

Lemma elems_fold_append {A B} (f : B → A) (l : list B) (s : slice A) :
  elems (fold_left (λ acc x, append acc (f x)) l s) = (elems s ++ map f l)%list.
Proof.
  revert s. induction l as [|x l IH]; intros s; simpl.
  - by rewrite app_nil_r.
  - rewrite IH. unfold append. simpl. by rewrite <- app_assoc.
Qed.

Lemma fold_append_nil {A B} (f : B → A) (l : list B) (s : slice A) :
  fold_left (λ acc x, append acc (f x)) l s = None ↔ s = None ∧ l = [].
Proof.
  destruct l as [|x l]; simpl; [split; [by intros ->|by intros [-> _]]|].
  split; [|by intros [_ ?]]. intros Hn. exfalso.
  assert (∀ (l' : list B) (s' : slice A), is_Some s' →
            is_Some (fold_left (λ acc x, append acc (f x)) l' s')) as Hs.
  { induction l' as [|y l' IH]; intros s' Hs'; [done|]. simpl.
    apply IH. unfold append. eauto. }
  destruct (Hs l (append s (f x))) as [? Hsome]; [unfold append; eauto|].
  congruence.
Qed.

Section ToolsFacts.
Context `{Platform} `{Services}.

Lemma ListConfiguredAccounts_reads w r w' :
  ListConfiguredAccounts w = (r, w') → w' = w.
Proof.
  unfold ListConfiguredAccounts, bind, ret. intros Hl.
  destruct (LoadConfig w) as [[cfg|e] w1] eqn:Hc;
    apply LoadConfig_reads in Hc as ->; by inversion Hl.
Qed.

Lemma GetCalendarService_reads a w r w' :
  GetCalendarService a w = (r, w') → w' = w.
Proof.
  unfold GetCalendarService, bind. intros Hg.
  destruct (GetOAuthConfig w) as [[c|e] w1] eqn:Hc;
    apply GetOAuthConfig_reads in Hc as ->; [|by inversion Hg].
  unfold wrap in Hg.
  destruct (LoadToken a w) as [[t|e] w1] eqn:Ht;
    apply LoadToken_reads in Ht as ->; [|by inversion Hg].
  unfold pure in Hg. by inversion Hg.
Qed.

Lemma getTargetAccounts_reads a w r w' :
  getTargetAccounts a w = (r, w') → w' = w.
Proof.
  unfold getTargetAccounts. destruct (decide (a = "")).
  - apply ListConfiguredAccounts_reads.
  - unfold ret. by intros [= _ <-].
Qed.

Lemma GetCalendars_loop_reads accounts cs w r w' :
  GetCalendars_loop accounts cs w = (r, w') → w' = w.
Proof.
  revert cs. induction accounts as [|acc rest IH]; intros cs; simpl.
  - unfold ret. by intros [= _ <-].
  - unfold bind at 1, wrap at 1. intros Hl.
    destruct (GetCalendarService acc w) as [[srv|e] w1] eqn:Hs;
      apply GetCalendarService_reads in Hs as ->; [|by inversion Hl].
    unfold bind at 1, wrap at 1, pure in Hl.
    destruct (CalendarList_List srv) as [items|e]; [|by inversion Hl].
    by apply IH in Hl.
Qed.

Lemma GetEvents_loop_reads input tmin tmax accounts es w r w' :
  GetEvents_loop input tmin tmax accounts es w = (r, w') → w' = w.
Proof.
  revert es. induction accounts as [|acc rest IH]; intros es; simpl.
  - unfold ret. by intros [= _ <-].
  - unfold bind at 1, wrap at 1. intros Hl.
    destruct (GetCalendarService acc w) as [[srv|e] w1] eqn:Hs;
      apply GetCalendarService_reads in Hs as ->; [|by inversion Hl].
    unfold bind at 1, wrap at 1, pure in Hl.
    destruct (Events_List srv _) as [items|e]; [|by inversion Hl].
    by apply IH in Hl.
Qed.

Lemma CheckAvailability_loop_reads input tmin tmax accounts bs w r w' :
  CheckAvailability_loop input tmin tmax accounts bs w = (r, w') → w' = w.
Proof.
  revert bs. induction accounts as [|acc rest IH]; intros bs; simpl.
  - unfold ret. by intros [= _ <-].
  - unfold bind at 1, wrap at 1. intros Hl.
    destruct (GetCalendarService acc w) as [[srv|e] w1] eqn:Hs;
      apply GetCalendarService_reads in Hs as ->; [|by inversion Hl].
    unfold bind at 1, wrap at 1, pure in Hl.
    destruct (Freebusy_Query srv _) as [items|e]; [|by inversion Hl].
    by apply IH in Hl.
Qed.

Lemma ListConfiguredAccounts_listed w l w' :
  ListConfiguredAccounts w = (Ok l, w') →
  w' = w ∧ NoDup l ∧ ∀ a, a ∈ l ↔ listed w a.
Proof.
  intros Hl. pose proof (ListConfiguredAccounts_reads _ _ _ Hl) as ->.
  split; [done|]. unfold ListConfiguredAccounts, bind, ret in Hl.
  destruct (LoadConfig w) as [[cfg|e] w1] eqn:Hc; [|done].
  apply LoadConfig_reads in Hc as Hw; subst w1. injection Hl as <-.
  pose proof (range_keys_perm (Accounts cfg)) as Hperm. split.
  - rewrite Hperm. apply NoDup_elements.
  - intros a. rewrite Hperm, elem_of_elements, elem_of_dom. unfold listed.
    split; [eauto|]. intros (cfg' & Hc' & Hs). rewrite Hc in Hc'.
    by injection Hc' as <-.
Qed.

(** [ListConfiguredAccounts] returns each configured account once, in
    some order, and nothing else; it only reads. *)
Theorem ListConfiguredAccounts_spec w l w' :
  ListConfiguredAccounts w = (Ok l, w') →
  w' = w ∧ NoDup l ∧ ∀ a, a ∈ l ↔ listed w a.
Proof. apply ListConfiguredAccounts_listed. Qed.

(** The calendar tools only read: whatever they return, [GetCalendars],
    [GetEvents], [GetEvent] and [CheckAvailability] leave the files, the
    directories and the port as they were. *)
Theorem calendar_tools_read_only w :
  (∀ a r w', GetCalendars a w = (r, w') → w' = w)
  ∧ (∀ now input r w', GetEvents now input w = (r, w') → w' = w)
  ∧ (∀ a c e r w', GetEvent a c e w = (r, w') → w' = w)
  ∧ (∀ input r w', CheckAvailability input w = (r, w') → w' = w).
Proof.
  split; [|split; [|split]].
  - intros a r w'. unfold GetCalendars, bind. intros Hg.
    destruct (getTargetAccounts a w) as [[accs|e] w1] eqn:Ht;
      apply getTargetAccounts_reads in Ht as ->; [|by inversion Hg].
    by apply GetCalendars_loop_reads in Hg.
  - intros now input r w'. unfold GetEvents, bind at 1. intros Hg.
    destruct (getTargetAccounts _ w) as [[accs|e] w1] eqn:Ht;
      apply getTargetAccounts_reads in Ht as ->; [|by inversion Hg].
    unfold bind at 1 in Hg.
    destruct (decide (Events_TimeMin input = "")); unfold ret, wrap, pure in Hg.
    + unfold bind at 1 in Hg.
      destruct (decide (Events_TimeMax input = "")); unfold ret in Hg.
      * by apply GetEvents_loop_reads in Hg.
      * destruct (time_Parse _ _); [|by inversion Hg].
        by apply GetEvents_loop_reads in Hg.
    + destruct (time_Parse _ _); [|by inversion Hg].
      unfold bind at 1 in Hg.
      destruct (decide (Events_TimeMax input = "")); unfold ret in Hg.
      * by apply GetEvents_loop_reads in Hg.
      * destruct (time_Parse _ _); [|by inversion Hg].
        by apply GetEvents_loop_reads in Hg.
  - intros a c e r w'. unfold GetEvent, bind at 1. intros Hg.
    destruct (GetCalendarService a w) as [[srv|e0] w1] eqn:Hs;
      apply GetCalendarService_reads in Hs as ->; [|by inversion Hg].
    unfold bind, wrap, pure, ret in Hg.
    destruct (Events_Get srv c e); by inversion Hg.
  - intros input r w'. unfold CheckAvailability, bind at 1. intros Hg.
    destruct (getTargetAccounts _ w) as [[accs|e] w1] eqn:Ht;
      apply getTargetAccounts_reads in Ht as ->; [|by inversion Hg].
    unfold bind at 1, wrap at 1, pure in Hg.
    destruct (time_Parse _ _); [|by inversion Hg].
    unfold bind at 1, wrap at 1, pure in Hg.
    destruct (time_Parse _ _); [|by inversion Hg].
    by apply CheckAvailability_loop_reads in Hg.
Qed.

Lemma GetCalendars_loop_accounts accounts cs0 w cs w' :
  GetCalendars_loop accounts cs0 w = (Ok cs, w') →
  ∀ c, c ∈ elems cs → c ∈ elems cs0 ∨ Calendar_Account c ∈ accounts.
Proof.
  revert cs0. induction accounts as [|acc rest IH]; intros cs0; simpl.
  - unfold ret. intros [= <- _] c Hc. by left.
  - unfold bind at 1, wrap at 1. intros Hl.
    destruct (GetCalendarService acc w) as [[srv|e] w1] eqn:Hs;
      apply GetCalendarService_reads in Hs as ->; [|by inversion Hl].
    unfold bind at 1, wrap at 1, pure in Hl.
    destruct (CalendarList_List srv) as [items|e]; [|by inversion Hl].
    intros c Hc. destruct (IH _ Hl c Hc) as [Hin|Hin].
    + rewrite elems_fold_append in Hin.
      apply elem_of_app in Hin as [Hin|Hin]; [by left|]. right.
      apply list_elem_of_fmap in Hin as (item & -> & _). simpl. left.
    + right. by right.
Qed.

(** Every calendar that [GetCalendars] returns carries the account it
    was listed for: the account asked for, or a configured account when
    none was named. *)
Theorem GetCalendars_accounts a w cs w' :
  GetCalendars a w = (Ok cs, w') →
  ∀ c, c ∈ elems cs →
       if decide (a = "") then listed w (Calendar_Account c)
       else Calendar_Account c = a.
Proof.
  unfold GetCalendars, bind, getTargetAccounts. intros Hg c Hc.
  destruct (decide (a = "")) as [->|Hne].
  - destruct (ListConfiguredAccounts w) as [[accs|e] w1] eqn:Hl; [|done].
    apply ListConfiguredAccounts_listed in Hl as (-> & _ & Hin).
    destruct (GetCalendars_loop_accounts _ _ _ _ _ Hg c Hc) as [Hn|Ha];
      [by apply elem_of_nil in Hn|]. by apply Hin.
  - unfold ret in Hg.
    destruct (GetCalendars_loop_accounts _ _ _ _ _ Hg c Hc) as [Hn|Ha];
      [by apply elem_of_nil in Hn|].
    by apply list_elem_of_singleton in Ha.
Qed.

(** Listing stops at the first account that fails: when the service of
    one of the accounts cannot be made, [GetCalendars_loop] returns an
    error and no calendar of any account. *)
Theorem GetCalendars_one_failure_fails_all accounts acc cs e w :
  acc ∈ accounts → fst (GetCalendarService acc w) = Err e →
  ∃ e', GetCalendars_loop accounts cs w = (Err e', w).
Proof.
  intros Hin Hfail. revert cs.
  induction accounts as [|a rest IH]; intros cs; [by apply elem_of_nil in Hin|].
  simpl. unfold bind at 1, wrap at 1.
  destruct (GetCalendarService a w) as [[srv|e0] w1] eqn:Hs;
    apply GetCalendarService_reads in Hs as Hw; subst w1; [|eauto].
  unfold bind at 1, wrap at 1, pure.
  destruct (CalendarList_List srv) as [items|e0]; [|eauto].
  apply elem_of_cons in Hin as [->|Hin]; [|by apply IH].
  rewrite Hs in Hfail. done.
Qed.


(** [GetEvents] asks for at least one and at most 250 events: the number
    asked for when it lies in that range, 50 when it is zero or negative,
    250 when it is larger. *)
Theorem events_call_maxResults input tmin tmax :
  let n := Call_MaxResults (events_call input tmin tmax) in
  (1 ≤ n ≤ 250)%Z
  ∧ ((1 ≤ Events_MaxResults input ≤ 250)%Z → n = Events_MaxResults input)
  ∧ ((Events_MaxResults input ≤ 0)%Z → n = 50%Z)
  ∧ ((250 < Events_MaxResults input)%Z → n = 250%Z).
Proof.
  simpl. unfold events_maxResults.
  destruct (Z.leb_spec (Events_MaxResults input) 0);
    destruct (Z.ltb_spec 250 (Events_MaxResults input));
    destruct (Z.ltb_spec 250 50); lia.
Qed.

(** [parseEvent] marks an event as lasting all day exactly when its start
    has no date-time but a date; the end has no part in it.  The event
    carries the account and the calendar it was asked for, and the
    emails of the attendees in their order, in a slice that is nil when
    there are none. *)
Theorem parseEvent_fields item account calendarID :
  (Event_AllDay (parseEvent item account calendarID) = true ↔
   ∃ st, Item_Start item = Some st ∧ DateTime st = "" ∧ Date st ≠ "")
  ∧ Event_Account (parseEvent item account calendarID) = account
  ∧ Event_CalendarID (parseEvent item account calendarID) = calendarID
  ∧ elems (Event_Attendees (parseEvent item account calendarID)) =
    map Attendee_Email (Item_Attendees item)
  ∧ (Event_Attendees (parseEvent item account calendarID) = None ↔
     Item_Attendees item = []).
Proof.
  unfold parseEvent.
  destruct (Item_Start item) as [st|] eqn:Hst.
  - destruct (decide (DateTime st = "")) as [Hdt|Hdt];
      [destruct (decide (Date st = "")) as [Hd|Hd]|]; simpl.
    + split; [|split; [done|split; [done|split]]].
      * split; [done|]. by intros (st' & [= <-] & _ & ?).
      * by rewrite elems_fold_append.
      * rewrite fold_append_nil. split; [by intros [_ ?]|done].
    + split; [|split; [done|split; [done|split]]].
      * split; [eauto|done].
      * by rewrite elems_fold_append.
      * rewrite fold_append_nil. split; [by intros [_ ?]|done].
    + split; [|split; [done|split; [done|split]]].
      * split; [done|]. by intros (st' & [= <-] & ? & _).
      * by rewrite elems_fold_append.
      * rewrite fold_append_nil. split; [by intros [_ ?]|done].
  - simpl. split; [|split; [done|split; [done|split]]].
    + split; [done|]. by intros (st' & ? & _).
    + by rewrite elems_fold_append.
    + rewrite fold_append_nil. split; [by intros [_ ?]|done].
Qed.

Lemma string_app_assoc (a b c : string) : (a ++ b) ++ c = a ++ (b ++ c).
Proof.
  induction a as [|x a IH]; [done|].
  change (String x ((a ++ b) ++ c) = String x (a ++ (b ++ c))). by rewrite IH.
Qed.

Lemma elems_fold_busy acc (cals : list (string * list TimePeriod))
  (bs : slice BusyPeriod) :
  elems (fold_left
           (λ bs cal,
              fold_left (λ bs busy, append bs (busy_of acc busy)) (snd cal) bs)
           cals bs) =
  (elems bs ++ flat_map (λ cal, map (busy_of acc) (snd cal)) cals)%list.
Proof.
  revert bs. induction cals as [|cal cals IH]; intros bs; simpl.
  - by rewrite app_nil_r.
  - by rewrite IH, elems_fold_append, <- app_assoc.
Qed.

(** For a named account [CheckAvailability] asks for the calendars given,
    or for the primary calendar when none is given, and reports every busy
    period of every calendar of the answer once, in the order of the
    answer, under that account. *)
Theorem CheckAvailability_named_account input w srv tmin tmax cals :
  Availability_Account input ≠ "" →
  GetCalendarService (Availability_Account input) w = (Ok srv, w) →
  time_Parse time_RFC3339 (Availability_TimeMin input) = Ok tmin →
  time_Parse time_RFC3339 (Availability_TimeMax input) = Ok tmax →
  Freebusy_Query srv (availability_request input tmin tmax) = Ok cals →
  Request_Items (availability_request input tmin tmax) ≠ []
  ∧ (elems (Availability_Calendars input) = [] →
     Request_Items (availability_request input tmin tmax) = ["primary"])
  ∧ ∃ bs, CheckAvailability input w = (Ok bs, w)
          ∧ elems bs =
            flat_map
              (λ cal, map (busy_of (Availability_Account input)) (snd cal))
              cals.
Proof.
  intros Hne Hs Hmin Hmax Hq. split; [|split].
  - unfold availability_request. simpl.
    by destruct (elems (Availability_Calendars input)).
  - unfold availability_request. simpl. by intros ->.
  - unfold CheckAvailability, bind at 1, getTargetAccounts.
    destruct (decide (Availability_Account input = "")); [done|].
    unfold ret. unfold bind at 1, wrap at 1, pure. rewrite Hmin.
    unfold bind at 1, wrap at 1, pure. rewrite Hmax. simpl.
    unfold bind at 1, wrap at 1. rewrite Hs.
    unfold bind at 1, wrap at 1, pure. rewrite Hq. unfold ret.
    eexists. split; [done|]. by rewrite elems_fold_busy.
Qed.

(** For a named account [GetEvents] reports a time that does not parse
    before it makes any service; with no times given it asks for the seven
    days from now on, in the primary calendar when none is given, and
    returns the events of the answer in their order, parsed under that
    account and calendar, in a slice that is nil exactly when there are
    none. *)
Theorem GetEvents_named_account now input w :
  Events_Account input ≠ "" →
  (∀ e, Events_TimeMin input ≠ "" →
     time_Parse time_RFC3339 (Events_TimeMin input) = Err e →
     GetEvents now input w = (Err (fmt_Wrap "invalid time_min format" e), w))
  ∧ (∀ srv items,
       Events_TimeMin input = "" → Events_TimeMax input = "" →
       GetCalendarService (Events_Account input) w = (Ok srv, w) →
       Events_List srv (events_call input now (time_AddDate now 0 0 7)) =
       Ok items →
       ∃ es, GetEvents now input w = (Ok es, w)
             ∧ elems es =
               map (λ item,
                      parseEvent item (Events_Account input)
                        (if decide (Events_CalendarID input = "") then "primary"
                         else Events_CalendarID input))
                 items
             ∧ (es = None ↔ items = [])).
Proof.
  intros Hne. split.
  - intros e Hmin He. unfold GetEvents, bind at 1, getTargetAccounts.
    destruct (decide (Events_Account input = "")); [done|]. unfold ret.
    destruct (decide (Events_TimeMin input = "")); [done|].
    unfold bind at 1, wrap at 1, pure. by rewrite He.
  - intros srv items Hmin Hmax Hs Hl.
    unfold GetEvents, bind at 1, getTargetAccounts.
    destruct (decide (Events_Account input = "")); [done|]. unfold ret.
    destruct (decide (Events_TimeMin input = "")); [|done].
    unfold bind at 1, ret.
    destruct (decide (Events_TimeMax input = "")); [|done].
    unfold bind at 1, ret. simpl.
    unfold bind at 1, wrap at 1. rewrite Hs.
    unfold bind at 1, wrap at 1, pure. rewrite Hl. unfold ret.
    eexists. split; [done|]. split.
    + by rewrite elems_fold_append.
    + rewrite fold_append_nil. split; [by intros [_ ?]|by intros ->].
Qed.

(** A handler that succeeds never puts a nil slice in its output: where
    the function it calls returns nil, the output holds an empty slice. *)
Theorem handlers_output_not_nil w :
  (∀ text out w', handleListAccounts w = (Ok (text, out), w') → out ≠ None)
  ∧ (∀ a text out w',
       handleListCalendars a w = (Ok (text, out), w') → out ≠ None)
  ∧ (∀ now input text out w',
       handleListEvents now input w = (Ok (text, out), w') → out ≠ None)
  ∧ (∀ input text out w',
       handleCheckAvailability input w = (Ok (text, out), w') → out ≠ None).
Proof.
  split; [|split; [|split]].
  - intros text out w'. unfold handleListAccounts, bind, wrap, ret.
    destruct (ListConfiguredAccounts w) as [[l|e] w1]; [|done].
    by intros [= _ <- _].
  - intros a text out w'. unfold handleListCalendars, bind, wrap, ret.
    destruct (GetCalendars a w) as [[cs|e] w1]; [|done].
    intros [= _ <- _]. by destruct cs.
  - intros now input text out w'. unfold handleListEvents, bind, wrap, ret.
    destruct (GetEvents now input w) as [[es|e] w1]; [|done].
    intros [= _ <- _]. by destruct es.
  - intros input text out w'. unfold handleCheckAvailability, bind, wrap, ret.
    destruct (CheckAvailability input w) as [[bs|e] w1]; [|done].
    intros [= _ <- _]. by destruct bs.
Qed.

(** [handleCheckAvailability] says that the time range is free exactly
    when no busy period came back; otherwise its text begins with the
    number of busy periods and a colon. *)
Theorem handleCheckAvailability_text input w bs w' :
  CheckAvailability input w = (Ok bs, w') →
  ∃ text,
    handleCheckAvailability input w = (Ok (text, not_nil bs), w')
    ∧ (elems bs = [] →
       text = "Found 0 busy period(s) - you're free during this time range!")
    ∧ (elems bs ≠ [] →
       ∃ rest,
         text = "Found " ++ pretty (length (elems bs)) ++ " busy period(s):"
                ++ rest).
Proof.
  intros Hc. unfold handleCheckAvailability, bind, wrap, ret. rewrite Hc.
  eexists. split; [done|].
  assert (elems (not_nil bs) = elems bs) as -> by (by destruct bs).
  rewrite elems_fold_append, length_app, length_map. simpl.
  split.
  - intros ->. done.
  - intros Hne. destruct (elems bs) as [|b l]; [done|]. simpl.
    eexists. rewrite !string_app_assoc. reflexivity.
Qed.

End ToolsFacts.

Section ServiceFacts.
Context `{Platform} `{Services}.

(** A service that [GetCalendarService] returns is made of the
    configuration read from the credentials file with the read-only
    calendar scope as its only scope, and of the token that [LoadToken]
    gives for the account. *)
Theorem GetCalendarService_spec a w srv w' :
  GetCalendarService a w = (Ok srv, w') →
  w' = w
  ∧ LoadToken a w = (Ok (Service_Token srv), w)
  ∧ ∃ d data,
      GetConfigDir w = (Ok d, w)
      ∧ os_ReadFile (filepath_Join [d; "credentials.json"]) w = Ok data
      ∧ google_ConfigFromJSON data
          ["https://www.googleapis.com/auth/calendar.readonly"] =
        Ok (Service_Config srv).
Proof.
  intros Hg. pose proof (GetCalendarService_reads _ _ _ _ Hg) as ->.
  split; [done|]. unfold GetCalendarService in Hg.
  apply bind_Ok in Hg as (c & w1 & Hc & Hg).
  apply GetOAuthConfig_reads in Hc as Hw; subst w1.
  apply bind_Ok in Hg as (t & w1 & Ht & Hg). apply wrap_Ok in Ht.
  apply LoadToken_reads in Ht as Hw; subst w1.
  unfold pure in Hg.
  destruct (calendar_NewService c t) as [[]|e]; [|done].
  injection Hg as <-. simpl. split; [done|].
  unfold GetOAuthConfig in Hc.
  apply bind_Ok in Hc as (cred & w1 & Hcred & Hc).
  unfold GetCredentialsPath in Hcred.
  apply bind_Ok in Hcred as (d & w2 & Hd & Hcred).
  destruct (GetConfigDir_inv _ _ _ Hd) as [-> _].
  unfold ret in Hcred. injection Hcred as <- <-.
  apply bind_Ok in Hc as (data & w1 & Hdata & Hc).
  apply wrap_Ok in Hdata. unfold lift in Hdata. injection Hdata as Hdata <-.
  apply wrap_Ok, pure_inv in Hc as [Hc _].
  exists d, data. done.
Qed.

End ServiceFacts.

(** ** The further properties on the sample worlds *)



Lemma SaveConfig_layout_witness :
  is_dir (snd (@SaveConfig (testPlatform true true) cfg_work world0))
    (filepath_Join [configDir0; "tokens"]) = true
  ∧ mode <$> files (snd (@SaveConfig (testPlatform true true) cfg_work world0))
               !! filepath_Join [configDir0; "config.json"] = Some 384%N.
Proof.
  destruct (@SaveConfig_layout (testPlatform true true) cfg_work world0
              (snd (@SaveConfig (testPlatform true true) cfg_work world0))
              configDir0)
    as (_ & Ht & _ & Hm).
  - vm_compute. reflexivity.
  - vm_compute. reflexivity.
  - split; [exact Ht|exact Hm].
Defined.


Lemma SaveToken_layout_witness :
  is_dir (snd (@SaveToken (testPlatform true true) "work" tok0 world0))
    (filepath_Dir (configDir0 ++ "/tokens/work.json")) = true
  ∧ mode <$> files (snd (@SaveToken (testPlatform true true) "work" tok0 world0))
               !! (configDir0 ++ "/tokens/work.json") = Some 384%N.
Proof.
  destruct (@SaveToken_layout (testPlatform true true) "work" tok0 world0
              (snd (@SaveToken (testPlatform true true) "work" tok0 world0))
              (configDir0 ++ "/tokens/work.json"))
    as (Hd & _ & Hm).
  - vm_compute. reflexivity.
  - vm_compute. reflexivity.
  - split; [exact Hd|exact Hm].
Defined.

Lemma SaveToken_other_account_unaffected_witness :
  fst (@LoadToken (testPlatform true true) "work"
         (snd (@SaveToken (testPlatform true true) "home" tok0 world1))) =
  fst (@LoadToken (testPlatform true true) "work" world1).
Proof.
  apply (@SaveToken_other_account_unaffected (testPlatform true true)
           "work" "home" tok0 world1
           (fst (@SaveToken (testPlatform true true) "home" tok0 world1))
           (snd (@SaveToken (testPlatform true true) "home" tok0 world1))
           (configDir0 ++ "/tokens/work.json")
           (configDir0 ++ "/tokens/home.json")).
  - vm_compute. reflexivity.
  - vm_compute. reflexivity.
  - vm_compute. reflexivity.
  - vm_compute. discriminate.
  - eexists. vm_compute. reflexivity.
Defined.

Lemma GetTokenPath_plain_names_witness :
  configDir0 ++ "/tokens/work.json" ≠ filepath_Join [configDir0; "config.json"]
  ∧ configDir0 ++ "/tokens/work.json" ≠
    filepath_Join [configDir0; "credentials.json"].
Proof.
  destruct (GetTokenPath_plain_names world0 "work" "home"
              (configDir0 ++ "/tokens/work.json") configDir0)
    as (_ & Hc & Hr).
  - vm_compute. reflexivity.
  - vm_compute. reflexivity.
  - vm_compute. reflexivity.
  - vm_compute. reflexivity.
  - split; [exact Hc|exact Hr].
Defined.



Lemma AddAccount_without_credentials_witness :
  @AddAccount (testPlatform true true) "work" callback_run
    (set_files (delete (configDir0 ++ "/credentials.json")) world0) =
  (Err (errors_New
          ("credentials.json not found. Please place your Google OAuth credentials at: "
           ++ filepath_Join [configDir0; "credentials.json"])),
   set_files (delete (configDir0 ++ "/credentials.json")) world0).
Proof.
  apply (@AddAccount_without_credentials (testPlatform true true) "work"
           callback_run _ {| Accounts := ∅ |} configDir0).
  - vm_compute. reflexivity.
  - vm_compute. reflexivity.
  - vm_compute. reflexivity.
  - vm_compute. reflexivity.
  - vm_compute. reflexivity.
  - vm_compute. reflexivity.
Defined.


Lemma first_signal_wins_witness :
  @PerformOAuthFlow (testPlatform true true) "work"
    (callback_run ++ [EvStdin (ReadLine ("other" ++ newline)); EvCallback "x"])
    world0 =
  @PerformOAuthFlow (testPlatform true true) "work" callback_run world0.
Proof.
  apply (@first_signal_wins (testPlatform true true) "work" callback_run
           [EvStdin (ReadLine ("other" ++ newline)); EvCallback "x"] world0
           (SigCode FromCallback "abc123")).
  left. vm_compute. reflexivity.
Defined.

Lemma first_code_is_exchanged_witness :
  @flow_exchange (testPlatform true true)
    ([EvListen; EvCoordinator true]
     ++ EvCallback "abc123" :: [EvStdin (ReadLine ("other" ++ newline))])
    world0 = Some (Ok tok0)
  ∧ @flow_exchange (testPlatform true true)
      ([EvListen; EvCoordinator true]
       ++ EvStdin (ReadLine (" abc123" ++ newline)) :: [EvCallback "other"])
      world0 = Some (Ok tok0).
Proof.
  split.
  - destruct (@first_code_is_exchanged (testPlatform true true)
                [EvListen; EvCoordinator true]
                [EvStdin (ReadLine ("other" ++ newline))] world0 oauth0)
      as [Hcb _].
    + vm_compute. reflexivity.
    + vm_compute. reflexivity.
    + rewrite Hcb; [reflexivity| |discriminate]. vm_compute. reflexivity.
  - destruct (@first_code_is_exchanged (testPlatform true true)
                [EvListen; EvCoordinator true] [EvCallback "other"] world0
                oauth0)
      as [_ Hm].
    + vm_compute. reflexivity.
    + vm_compute. reflexivity.
    + rewrite (Hm _ "abc123"); [reflexivity| |];
        vm_compute; reflexivity.
Defined.

Lemma callback_without_code_fails_witness :
  @PerformOAuthFlow (testPlatform true true) "work"
    ([EvListen; EvCoordinator true] ++ EvCallback "" :: [EvCallback "abc123"])
    world0 =
  (Err (errors_New "no code in callback"), world0).
Proof.
  destruct (@callback_without_code_fails (testPlatform true true) "work"
              [EvListen; EvCoordinator true] [EvCallback "abc123"] world0
              oauth0)
    as [Hf _].
  - vm_compute. reflexivity.
  - vm_compute. reflexivity.
  - vm_compute. reflexivity.
  - exact Hf.
Defined.

Lemma busy_port_fails_witness :
  @PerformOAuthFlow (testPlatform true true) "work"
    (EvListen :: [EvCoordinator true; EvStdin (ReadLine newline)])
    (set_port true world0) =
  (Err (fmt_Wrap "server error" (OpError "listen" ":8089" EADDRINUSE)),
   set_port true world0).
Proof.
  apply (@busy_port_fails (testPlatform true true) "work" _ _ oauth0).
  - vm_compute. reflexivity.
  - reflexivity.
  - vm_compute. reflexivity.
Defined.

Lemma PerformOAuthFlow_success_witness :
  ∃ c tok,
    @GetOAuthConfig (testPlatform true true) world0 = (Ok c, world0)
    ∧ @flow_exchange (testPlatform true true) callback_run world0 =
      Some (Ok tok)
    ∧ @SaveToken (testPlatform true true) "work" tok world0 =
      (Ok tt,
       snd (@PerformOAuthFlow (testPlatform true true) "work" callback_run
              world0))
    ∧ @CalendarList_Get_primary (testPlatform true true)
        (with_RedirectURL "http://localhost:8089/callback" c) tok =
      Ok "op@example.com"
    ∧ ∃ p data f,
        GetTokenPath "work"
          (snd (@PerformOAuthFlow (testPlatform true true) "work" callback_run
                  world0)) =
        (Ok p,
         snd (@PerformOAuthFlow (testPlatform true true) "work" callback_run
                world0))
        ∧ @json_MarshalIndent_Token (testPlatform true true) tok = Ok data
        ∧ files (snd (@PerformOAuthFlow (testPlatform true true) "work"
                        callback_run world0)) !! p = Some f
        ∧ content f = data.
Proof.
  apply (@PerformOAuthFlow_success (testPlatform true true) "work"
           callback_run world0).
  vm_compute. reflexivity.
Defined.

Lemma late_callback_ignored_witness :
  step (run (session_init false) (callback_run ++ [EvCoordinator true]))
    (EvCallback "late") =
  run (session_init false) (callback_run ++ [EvCoordinator true]).
Proof.
  apply (late_callback_ignored false (callback_run ++ [EvCoordinator true])
           (SigCode FromCallback "abc123")).
  vm_compute. reflexivity.
Defined.

Lemma ListConfiguredAccounts_spec_witness :
  NoDup ["work"] ∧ ∀ a, a ∈ ["work"] ↔ @listed (testPlatform true true) world1 a.
Proof.
  destruct (@ListConfiguredAccounts_spec (testPlatform true true)
              (testServices false) world1 ["work"] world1)
    as (_ & Hn & Hl).
  - vm_compute. reflexivity.
  - split; [exact Hn|exact Hl].
Defined.

Lemma calendar_tools_read_only_witness :
  snd (@GetCalendars (testPlatform true true) (testServices false) "work"
         world1) = world1
  ∧ snd (@CheckAvailability (testPlatform true true) (testServices false)
           availability0 world1) = world1.
Proof.
  destruct (@calendar_tools_read_only (testPlatform true true)
              (testServices false) world1)
    as (Hc & _ & _ & Ha).
  split.
  - apply (Hc "work" (fst (@GetCalendars (testPlatform true true)
                             (testServices false) "work" world1))).
    vm_compute. reflexivity.
  - apply (Ha availability0
             (fst (@CheckAvailability (testPlatform true true)
                     (testServices false) availability0 world1))).
    vm_compute. reflexivity.
Defined.

Lemma GetCalendars_accounts_witness :
  @listed (testPlatform true true) world1 "work".
Proof.
  exact (@GetCalendars_accounts (testPlatform true true) (testServices false)
           "" world1
           (Some [{| Calendar_ID := "op@example.com";
                     Calendar_Summary := "Work";
                     Calendar_Description := "";
                     Calendar_Primary := true;
                     Calendar_Account := "work" |}]) world1
           ltac:(vm_compute; reflexivity)
           {| Calendar_ID := "op@example.com";
              Calendar_Summary := "Work";
              Calendar_Description := "";
              Calendar_Primary := true;
              Calendar_Account := "work" |}
           ltac:(apply elem_of_cons; by left)).
Defined.

Lemma GetCalendars_one_failure_fails_all_witness :
  ∃ e', @GetCalendars_loop (testPlatform true true) (testServices false)
          ["work"; "ghost"] None world1 = (Err e', world1).
Proof.
  eapply (@GetCalendars_one_failure_fails_all (testPlatform true true)
            (testServices false) ["work"; "ghost"] "ghost").
  - apply elem_of_cons. right. apply elem_of_cons. by left.
  - vm_compute. reflexivity.
Defined.


Lemma events_call_maxResults_witness :
  Call_MaxResults
    (@events_call (testServices false)
       {| Events_Account := "work"; Events_CalendarID := "";
          Events_TimeMin := ""; Events_TimeMax := "";
          Events_MaxResults := 1000; Events_Query := "" |} 0%Z 0%Z) = 250%Z.
Proof.
  destruct (@events_call_maxResults (testServices false)
              {| Events_Account := "work"; Events_CalendarID := "";
                 Events_TimeMin := ""; Events_TimeMax := "";
                 Events_MaxResults := 1000; Events_Query := "" |} 0%Z 0%Z)
    as (_ & _ & _ & Hbig).
  apply Hbig. simpl. lia.
Defined.

Lemma CheckAvailability_named_account_witness :
  ∃ bs,
    @CheckAvailability (testPlatform true true) (testServices false)
      availability0 world1 = (Ok bs, world1)
    ∧ elems bs =
      [{| Busy_Start := 1769940000%Z : @Time (testServices false);
          Busy_End := 1769943600%Z : @Time (testServices false);
          Busy_Account := "work" |}].
Proof.
  destruct (@CheckAvailability_named_account (testPlatform true true)
              (testServices false) availability0 world1
              {| Service_Config := oauth0; Service_Token := tok0 |}
              1769940000%Z 1769943600%Z
              [("primary",
                [{| Period_Start := "2026-02-01T10:00:00Z";
                    Period_End := "2026-02-01T11:00:00Z" |}])])
    as (_ & _ & bs & Hc & He).
  - discriminate.
  - vm_compute. reflexivity.
  - vm_compute. reflexivity.
  - vm_compute. reflexivity.
  - vm_compute. reflexivity.
  - exists bs. split; [exact Hc|]. rewrite He. vm_compute. reflexivity.
Defined.

Lemma handlers_output_not_nil_witness :
  fst (@GetCalendars (testPlatform true true) (testServices true) "work" world1)
  = Ok None
  ∧ snd <$> match fst (@handleListCalendars (testPlatform true true)
                         (testServices true) "work" world1) with
            | Ok r => Some r
            | Err _ => None
            end = Some (Some [])
  ∧ Some [] ≠ (None : slice Calendar).
Proof.
  destruct (@handlers_output_not_nil (testPlatform true true)
              (testServices true) world1)
    as (_ & Hc & _ & _).
  split; [vm_compute; reflexivity|]. split; [vm_compute; reflexivity|].
  eapply (Hc "work" _ (Some []) world1).
  vm_compute. reflexivity.
Defined.

Lemma handleCheckAvailability_text_witness :
  ∃ text,
    @handleCheckAvailability (testPlatform true true) (testServices true)
      availability0 world1 = (Ok (text, not_nil None), world1)
    ∧ (elems (None : slice (@BusyPeriod (testServices true))) = [] →
       text = "Found 0 busy period(s) - you're free during this time range!")
    ∧ (elems (None : slice (@BusyPeriod (testServices true))) ≠ [] →
       ∃ rest,
         text = "Found "
                ++ pretty (length (elems (None : slice (@BusyPeriod (testServices true)))))
                ++ " busy period(s):" ++ rest).
Proof.
  apply (@handleCheckAvailability_text (testPlatform true true)
           (testServices true) availability0 world1 None world1).
  vm_compute. reflexivity.
Defined.

Lemma GetCalendarService_spec_witness :
  @LoadToken (testPlatform true true) "work" world1 = (Ok tok0, world1)
  ∧ ∃ d data,
      GetConfigDir world1 = (Ok d, world1)
      ∧ os_ReadFile (filepath_Join [d; "credentials.json"]) world1 = Ok data
      ∧ @google_ConfigFromJSON (testPlatform true true) data
          ["https://www.googleapis.com/auth/calendar.readonly"] = Ok oauth0.
Proof.
  destruct (@GetCalendarService_spec (testPlatform true true) "work" world1
              {| Service_Config := oauth0; Service_Token := tok0 |} world1)
    as (_ & Ht & Hc).
  - vm_compute. reflexivity.
  - split; [exact Ht|exact Hc].
Defined.

Lemma GetEvents_named_account_witness :
  @GetEvents (testPlatform true true) (testServices false) 0%Z
    {| Events_Account := "work"; Events_CalendarID := "";
       Events_TimeMin := "yesterday"; Events_TimeMax := "";
       Events_MaxResults := 0; Events_Query := "" |} world1 =
  (Err (fmt_Wrap "invalid time_min format"
          (errors_New "parsing time: cannot parse")), world1)
  ∧ ∃ es,
      @GetEvents (testPlatform true true) (testServices false) 0%Z events0
        world1 = (Ok es, world1)
      ∧ length (elems es) = 1%nat.
Proof.
  split.
  - apply (@GetEvents_named_account (testPlatform true true)
             (testServices false) 0%Z
             {| Events_Account := "work"; Events_CalendarID := "";
                Events_TimeMin := "yesterday"; Events_TimeMax := "";
                Events_MaxResults := 0; Events_Query := "" |} world1).
    + discriminate.
    + discriminate.
    + vm_compute. reflexivity.
  - destruct (@GetEvents_named_account (testPlatform true true)
                (testServices false) 0%Z events0 world1) as [_ Hw].
    + discriminate.
    + destruct (Hw {| Service_Config := oauth0; Service_Token := tok0 |}
                  [{| Item_Id := "e1"; Item_Summary := "Review";
                      Item_Description := ""; Item_Location := "";
                      Item_Start :=
                        Some {| DateTime := "2026-02-01T10:00:00Z";
                                Date := "" |};
                      Item_End :=
                        Some {| DateTime := "2026-02-01T11:00:00Z";
                                Date := "" |};
                      Item_Attendees := [{| Attendee_Email := "a@example.com" |}];
                      Item_Organizer := None; Item_Status := "confirmed";
                      Item_HtmlLink := "" |}])
        as (es & He & Hl & _).
      * reflexivity.
      * reflexivity.
      * vm_compute. reflexivity.
      * vm_compute. reflexivity.
      * exists es. split; [exact He|]. by rewrite Hl.
Defined.
